(** * paletti: colour palette extraction

    A shallow embedding of [paletti.py] (the single-module version) and of
    [paletti/paletti.py] (the packaged version) together with the properties
    that the specification states about them.

    Conventions.
    - Python exceptions are values of [exn]; a call that can raise returns a
      [result].  Code that touches the file system or the global random
      generator lives in the state-and-exception monad [M].
    - [float64] values are idealised as rationals ([Q]); [uint8] values are
      integers with the cast written out.  Where a result depends on the
      rounding of doubles (the columns of the strip, the 8-bit channels that
      are printed), every operation is followed by [binary64], the rounding
      to the nearest double.
    - Calls into OpenCV, PIL, scikit-learn and the absent [utils] module are
      fields of the record [Externals]; numpy's array operations that the
      source relies on ([reshape], [squeeze], [histogram], ...) are written
      out after numpy's documented behaviour. *)

From Stdlib Require Import ZArith QArith Qround Qabs Qfield Qpower List String Ascii Bool
  Lia Lqa Arith.
Import ListNotations.
Open Scope string_scope.
Open Scope Z_scope.

(** ** Python values: exceptions and results *)

Module Py.

Inductive exn : Type := Exn (cls : string).

Definition AssertionError := Exn "AssertionError".
Definition AttributeError := Exn "AttributeError".
Definition IndexError := Exn "IndexError".
Definition IOError := Exn "IOError".
Definition TypeError := Exn "TypeError".
Definition ValueError := Exn "ValueError".
Definition cv2_error := Exn "cv2.error".

Inductive result (A : Type) : Type :=
| Ok (a : A)
| Raise (e : exn).
Arguments Ok {A} a.
Arguments Raise {A} e.

Definition rbind {A B} (r : result A) (f : A -> result B) : result B :=
  match r with
  | Ok a => f a
  | Raise e => Raise e
  end.

Fixpoint rmap {A B} (f : A -> result B) (l : list A) : result (list B) :=
  match l with
  | [] => Ok []
  | x :: xs =>
      rbind (f x) (fun y => rbind (rmap f xs) (fun ys => Ok (y :: ys)))
  end.

Definition raises {A} (r : result A) : Prop := exists e, r = Raise e.

(** *** Strings (Python 2 [str]) *)

Definition startswith (s p : string) : bool := String.prefix p s.

(** [s.lstrip(c)] for a one-character argument. *)
Fixpoint lstrip (c : ascii) (s : string) : string :=
  match s with
  | String a rest => if Ascii.eqb a c then lstrip c rest else s
  | EmptyString => EmptyString
  end.

(** [s[i:j]] for [0 <= i <= j]. *)
Definition slice (s : string) (i j : nat) : string :=
  String.substring i (j - i) s.

Definition is_space (c : ascii) : bool :=
  let n := nat_of_ascii c in
  (Nat.eqb n 32 || (Nat.leb 9 n && Nat.leb n 13))%bool.

Definition hex_value (c : ascii) : option Z :=
  let n := Z.of_nat (nat_of_ascii c) in
  if (48 <=? n) && (n <=? 57) then Some (n - 48)
  else if (97 <=? n) && (n <=? 102) then Some (n - 87)
  else if (65 <=? n) && (n <=? 70) then Some (n - 55)
  else None.

Fixpoint hex_digits (s : string) (acc : Z) : option Z :=
  match s with
  | EmptyString => Some acc
  | String c rest =>
      match hex_value c with
      | Some d => hex_digits rest (16 * acc + d)
      | None => None
      end
  end.

Fixpoint lstrip_space (s : string) : string :=
  match s with
  | String a rest => if is_space a then lstrip_space rest else s
  | EmptyString => EmptyString
  end.

Fixpoint rstrip_space (s : string) : string :=
  match s with
  | EmptyString => EmptyString
  | String a rest =>
      match rstrip_space rest with
      | EmptyString => if is_space a then EmptyString else String a EmptyString
      | r => String a r
      end
  end.

Definition strip_0x (s : string) : string :=
  match s with
  | String "0" (String x rest) =>
      if (Ascii.eqb x "x" || Ascii.eqb x "X")%bool then rest else s
  | _ => s
  end.

Definition unsigned16 (s : string) : option Z :=
  match strip_0x s with
  | EmptyString => None
  | d => hex_digits d 0
  end.

(** [int(s, 16)]: surrounding white space, an optional sign, an optional
    [0x] prefix and at least one hexadecimal digit; anything else is a
    [ValueError]. *)
Definition int16 (s : string) : result Z :=
  let body := rstrip_space (lstrip_space s) in
  let parsed :=
    match body with
    | String "-" rest => option_map Z.opp (unsigned16 rest)
    | String "+" rest => unsigned16 rest
    | _ => unsigned16 body
    end in
  match parsed with
  | Some n => Ok n
  | None => Raise ValueError
  end.

Definition hex_char (upper : bool) (d : Z) : ascii :=
  if d <? 10 then ascii_of_nat (Z.to_nat (48 + d))
  else ascii_of_nat (Z.to_nat ((if upper then 55 else 87) + d)).

Fixpoint hex_of_aux (upper : bool) (fuel : nat) (n : Z) (acc : string) : string :=
  match fuel with
  | O => acc
  | S fuel' =>
      let acc' := String (hex_char upper (n mod 16)) acc in
      if n <? 16 then acc' else hex_of_aux upper fuel' (n / 16) acc'
  end.

(** Hexadecimal digits of a non-negative integer, most significant first. *)
Definition hex_of (upper : bool) (n : Z) : string :=
  hex_of_aux upper (S (Z.to_nat (Z.log2 n))) n EmptyString.

Fixpoint zero_pad (n : nat) : string :=
  match n with
  | O => EmptyString
  | S n' => String "0" (zero_pad n')
  end.

(** ['%02x' % n]: sign, then zeros up to a total width of two, then digits. *)
Definition fmt_02x (n : Z) : string :=
  let sign := if n <? 0 then "-" else "" in
  let digits := hex_of false (Z.abs n) in
  sign ++ zero_pad (2 - String.length sign - String.length digits) ++ digits.

(** ['%X' % n]. *)
Definition fmt_X (n : Z) : string :=
  (if n <? 0 then "-" else "") ++ hex_of true (Z.abs n).

End Py.
Export Py.

Notation "x <- c1 ;;; c2" := (rbind c1 (fun x => c2))
  (at level 61, c1 at next level, right associativity).

(** ** Colour helpers of [paletti.py] *)

(** [range(0, lv, step)] for [step > 0]. *)
Fixpoint range_step (fuel : nat) (i lv step : nat) : list nat :=
  match fuel with
  | O => []
  | S fuel' =>
      if Nat.ltb i lv then i :: range_step fuel' (i + step) lv step else []
  end.

Definition hex2rgb (hexcolor : string) : result (list Z) :=
  let value := if startswith hexcolor "#" then lstrip "#" hexcolor else hexcolor in
  let lv := String.length value in
  let step := Nat.div lv 3 in
  if Nat.eqb step 0 then Raise ValueError   (* range() arg 3 must not be zero *)
  else rmap (fun i => int16 (slice value i (i + step))) (range_step lv 0 lv step).

Definition rgb2hex (rgb : Z * Z * Z) : string :=
  let '(r, g, b) := rgb in
  "#" ++ fmt_02x r ++ fmt_02x g ++ fmt_02x b.

(** A Python list has no [join] attribute: evaluating [comp.join] raises. *)
Definition list_join (comp : list string) : result string :=
  Raise AttributeError.

Definition complementary_color (incolor : string) : result string :=
  let incolor := if startswith incolor "#" then slice incolor 1 (String.length incolor)
                 else incolor in
  let rgb := [slice incolor 0 2; slice incolor 2 4; slice incolor 4 6] in
  comp <- rmap (fun a => n <- int16 a ;;; Ok ("02" ++ fmt_X (255 - n))) rgb ;;;
  list_join comp.

(** ** numpy arrays

    An array is its shape and its elements in row-major (C) order.  Only the
    operations the source uses are modelled. *)

Module Np.

Record ndarray : Type := mk_array { shape : list nat; data : list Q }.

Definition prod_shape (s : list nat) : nat := fold_right Nat.mul 1%nat s.

Definition size (a : ndarray) : nat := prod_shape (shape a).

(** The element list has as many entries as the shape announces. *)
Definition wf (a : ndarray) : Prop := List.length (data a) = size a.

(** [np.reshape(a, s)] / [a.reshape(s)]. *)
Definition reshape (a : ndarray) (s : list nat) : result ndarray :=
  if Nat.eqb (prod_shape s) (size a) then Ok (mk_array s (data a))
  else Raise ValueError.

(** [a.squeeze()]: every axis of length one is removed. *)
Definition squeeze (a : ndarray) : ndarray :=
  mk_array (filter (fun n => negb (Nat.eqb n 1)) (shape a)) (data a).

(** [np.expand_dims(a, axis=0)]. *)
Definition expand_dims0 (a : ndarray) : ndarray :=
  mk_array (1%nat :: shape a) (data a).

(** [len(a)]: length of the first axis; a 0-d array has no length. *)
Definition len (a : ndarray) : result nat :=
  match shape a with
  | [] => Raise TypeError
  | n :: _ => Ok n
  end.

(** [a[i]] for an integer [i]. *)
Definition getitem (a : ndarray) (i : Z) : result ndarray :=
  match shape a with
  | [] => Raise IndexError
  | n :: rest =>
      let i' := if i <? 0 then i + Z.of_nat n else i in
      if (0 <=? i') && (i' <? Z.of_nat n) then
        let sz := prod_shape rest in
        Ok (mk_array rest (firstn sz (skipn (Z.to_nat i' * sz) (data a))))
      else Raise IndexError
  end.

(** Broadcasting of the right-hand side of [a[i] = v] to the shape of the
    row [a[i]]: an array of the same shape is copied, an array whose axes all
    have length one is repeated.  (For the one-dimensional rows the source
    assigns to, these are the right-hand sides numpy accepts among arrays of
    at most one axis.) *)
Definition broadcast_to (v : ndarray) (s : list nat) : result (list Q) :=
  if list_eq_dec Nat.eq_dec (shape v) s then Ok (data v)
  else if forallb (Nat.eqb 1) (shape v) && Nat.leb (List.length (shape v)) (List.length s) then
    match data v with
    | x :: _ => Ok (repeat x (prod_shape s))
    | [] => Raise ValueError
    end
  else Raise ValueError.

(** [a[i] = v] for [0 <= i]. *)
Definition setitem (a : ndarray) (i : nat) (v : ndarray) : result ndarray :=
  match shape a with
  | [] => Raise IndexError
  | n :: rest =>
      if Nat.ltb i n then
        let sz := prod_shape rest in
        row <- broadcast_to v rest ;;;
        Ok (mk_array (shape a)
              (firstn (i * sz) (data a) ++ row ++ skipn (i * sz + sz) (data a)))
      else Raise IndexError
  end.

Definition zeros (s : list nat) : ndarray :=
  mk_array s (repeat 0%Q (prod_shape s)).

Definition amap (f : Q -> Q) (a : ndarray) : ndarray :=
  mk_array (shape a) (map f (data a)).

Definition Qtruncate (x : Q) : Z :=
  if Qle_bool 0 x then Qfloor x else Qceiling x.

(** [a.astype('uint8')]: truncation towards zero, then reduction modulo 256. *)
Definition astype_uint8 (a : ndarray) : ndarray :=
  amap (fun x => inject_Z (Qtruncate x mod 256)) a.

(** [for c in a]: the items of an array along its first axis; a 0-d array
    cannot be iterated. *)
Definition iterate (a : ndarray) : result (list ndarray) :=
  match shape a with
  | [] => Raise TypeError
  | n :: _ => rmap (fun i => getitem a (Z.of_nat i)) (seq 0 n)
  end.

(** [tuple(c)] for an 8-bit colour: the numbers of a one-dimensional array;
    a 0-d array cannot be iterated.  (An array of more axes gives a tuple of
    arrays, which neither ['%02x'] nor PIL accept.) *)
Definition tuple (c : ndarray) : result (list Z) :=
  match shape c with
  | [_] => Ok (map Qfloor (data c))
  | _ => Raise TypeError
  end.

(** The exponent of a positive number: the [e] with [2 ** e <= x < 2 ** (e + 1)]. *)
Definition ilog2 (x : Q) : Z :=
  let e := Z.log2 (Qnum x) - Z.log2 (Zpos (Qden x)) in
  if Qle_bool (2 ^ e) x then e else e - 1.

(** Rounding to the nearest integer, ties to the even one. *)
Definition round_half_even (y : Q) : Z :=
  let f := Qfloor y in
  match (y - inject_Z f ?= 1 # 2)%Q with
  | Lt => f
  | Gt => f + 1
  | Eq => if Z.even f then f else f + 1
  end.

(** The double nearest to a real number, ties to even (IEEE 754 binary64):
    53 significant bits, and multiples of [2 ** -1074] below [2 ** -1022].
    Numbers beyond the largest double, which round to an infinity, are not
    covered. *)
Definition binary64 (x : Q) : Q :=
  if Qeq_bool x 0 then 0%Q
  else
    let a := Qabs x in
    let q := (2 ^ Z.max (ilog2 a - 52) (-1074))%Q in
    let m := inject_Z (round_half_even (a / q)) in
    Qred (if Qle_bool 0 x then m * q else - (m * q))%Q.

Definition Qsum (l : list Q) : Q := fold_right Qplus 0%Q l.

Definition Zmin_list (x : Z) (l : list Z) : Z := fold_right Z.min x l.
Definition Zmax_list (x : Z) (l : list Z) : Z := fold_right Z.max x l.

(** The outer bin edges of [np.histogram(a, bins)] when no range is given:
    the least and greatest element, widened by one half on each side when they
    coincide; [(0, 1)] for an empty array. *)
Definition outer_edges (a : list Z) : Q * Q :=
  match a with
  | [] => (0, 1)%Q
  | x :: xs =>
      let lo := Zmin_list x xs in
      let hi := Zmax_list x xs in
      if lo =? hi then (inject_Z lo - (1 # 2), inject_Z hi + (1 # 2))%Q
      else (inject_Z lo, inject_Z hi)
  end.

(** Index of the bin that receives [x]: bins have equal width, each is closed
    on the left and open on the right, except the last, which is closed. *)
Definition bin_index (lo hi : Q) (bins : nat) (x : Z) : Z :=
  Z.min (Qfloor ((inject_Z x - lo) * inject_Z (Z.of_nat bins) / (hi - lo)))
        (Z.of_nat bins - 1).

Definition count_bin (idx : list Z) (j : nat) : Z :=
  Z.of_nat (List.length (filter (fun i => i =? Z.of_nat j) idx)).

(** [np.histogram(a, bins=bins, normed=True)[0]]: the count of every bin
    divided by the bin width and by the number of elements. *)
Definition histogram_normed (a : list Z) (bins : nat) : result (list Q) :=
  if Nat.eqb bins 0 then Raise ValueError
  else
    let '(lo, hi) := outer_edges a in
    let idx := map (bin_index lo hi bins) a in
    let width := ((hi - lo) / inject_Z (Z.of_nat bins))%Q in
    let total := inject_Z (Z.of_nat (List.length a)) in
    Ok (map (fun j => (inject_Z (count_bin idx j) / width / total)%Q) (seq 0 bins)).

(** [percent /= float(percent.sum())]. *)
Definition normalize (percent : list Q) : list Q :=
  let s := Qsum percent in map (fun p => (p / s)%Q) percent.

End Np.
Export Np.

(** ** Images, files and the world *)

(** A decoded image as PIL holds it: a mode, a size and the band values of
    the pixels in row-major order.  The modes are the ones the claims
    distinguish: grey, colour, colour with alpha. *)
Inductive mode : Type := L | RGB | RGBA.

Definition bands (m : mode) : nat :=
  match m with L => 1 | RGB => 3 | RGBA => 4 end%nat.

Record picture : Type := mk_picture {
  pic_mode : mode;
  pic_width : nat;
  pic_height : nat;
  pic_data : list Z
}.

Definition pic_wf (p : picture) : Prop :=
  List.length (pic_data p) = (pic_height p * pic_width p * bands (pic_mode p))%nat.

Inductive file : Type := ImageFile (p : picture) | OtherFile.

Fixpoint lookup (name : string) (fs : list (string * file)) : option file :=
  match fs with
  | [] => None
  | (n, f) :: rest => if String.eqb n name then Some f else lookup name rest
  end.

(** [np.asarray(image)]: shape (height, width) for a grey image, else
    (height, width, bands). *)
Definition np_asarray (p : picture) : ndarray :=
  mk_array
    (match pic_mode p with
     | L => [pic_height p; pic_width p]
     | m => [pic_height p; pic_width p; bands m]
     end)
    (map inject_Z (pic_data p)).

(** [Image.fromarray(a)] for an 8-bit array. *)
Definition Image_fromarray (a : ndarray) : result picture :=
  match shape a with
  | [h; w] => Ok (mk_picture L w h (map Qfloor (data a)))
  | [h; w; 3%nat] => Ok (mk_picture RGB w h (map Qfloor (data a)))
  | [h; w; 4%nat] => Ok (mk_picture RGBA w h (map Qfloor (data a)))
  | _ => Raise TypeError
  end.

(** The pixels of a decoded image as [cv2.imread] with its default flag
    delivers them: always three channels, in blue-green-red order; a grey
    value is repeated, an alpha value is left out. *)
Fixpoint to_bgr (m : mode) (l : list Z) : list Z :=
  match m, l with
  | L, v :: rest => v :: v :: v :: to_bgr m rest
  | RGB, r :: g :: b :: rest => b :: g :: r :: to_bgr m rest
  | RGBA, r :: g :: b :: _ :: rest => b :: g :: r :: to_bgr m rest
  | _, _ => []
  end.

Definition imread_array (p : picture) : ndarray :=
  mk_array [pic_height p; pic_width p; 3%nat]
           (map inject_Z (to_bgr (pic_mode p) (pic_data p))).

Definition pixel : Type := Q * Q * Q.

(** A pixel-wise conversion applied to an array whose last axis has length 3. *)
Fixpoint map3 (f : pixel -> pixel) (l : list Q) : list Q :=
  match l with
  | x :: y :: z :: rest => let '(a, b, c) := f (x, y, z) in a :: b :: c :: map3 f rest
  | _ => []
  end.

Definition last_axis (a : ndarray) : nat := last (shape a) 0%nat.

Inductive resample_filter : Type := NEAREST | ANTIALIAS.

(** [x, y = self.size] ... of [Image.thumbnail(size)]: the size that
    preserves the aspect ratio (Python 2 integer division). *)
Definition thumbnail_size (x y sx sy : nat) : nat * nat :=
  let '(x1, y1) :=
    if Nat.ltb sx x then (sx, Nat.max (y * sx / x) 1) else (x, y) in
  if Nat.ltb sy y1 then (Nat.max (x1 * sy / y1) 1, sy) else (x1, y1).

(** Python 2 [os.path.splitext(p)[0]]. *)
Fixpoint rfind (c : ascii) (s : string) (pos : Z) (found : Z) : Z :=
  match s with
  | EmptyString => found
  | String a rest => rfind c rest (pos + 1) (if Ascii.eqb a c then pos else found)
  end.

Fixpoint all_dots (s : string) : bool :=
  match s with
  | EmptyString => true
  | String a rest => Ascii.eqb a "." && all_dots rest
  end.

Definition splitext_root (p : string) : string :=
  let sepIndex := rfind "/" p 0 (-1) in
  let dotIndex := rfind "." p 0 (-1) in
  if (sepIndex <? dotIndex)
     && negb (all_dots (slice p (Z.to_nat (sepIndex + 1)) (Z.to_nat dotIndex)))
  then slice p 0 (Z.to_nat dotIndex)
  else p.

(** ** External collaborators

    What the source calls but does not define.  The colour conversions act on
    one pixel; the resampling filter delivers the band values of the resized
    image; the clusterer consumes the global random generator. *)
Record Externals : Type := {
  RandomState : Type;
  (* OpenCV: cv2.cvtColor on one 8-bit pixel *)
  COLOR_BGR2LAB : pixel -> pixel;
  COLOR_LAB2RGB : pixel -> pixel;
  (* utils.rgb2lab / utils.lab2rgb on one pixel *)
  rgb2lab_pixel : pixel -> pixel;
  lab2rgb_pixel : pixel -> pixel;
  (* PIL: resampling to a given width and height *)
  resample : resample_filter -> picture -> nat -> nat -> list Z;
  (* PIL: convert('P', palette=ADAPTIVE, colors=k) followed by getcolors *)
  adaptive_colors : picture -> Z -> list (Z * (Z * Z * Z));
  (* sklearn: KMeans(n_clusters=k).fit(X).cluster_centers_ and predict *)
  KMeans_fit : RandomState -> ndarray -> Z -> result ndarray * RandomState;
  KMeans_predict : ndarray -> ndarray -> list Z;
  (* colorific.extract_colors(...)[0] *)
  extract_colors : picture -> Z -> list ((Z * Z * Z) * Q);
  (* the colours in the answer of the pictaculous service *)
  pictaculous_colors : file -> result (list string)
}.

Record Palette : Type := mk_Palette { colors : ndarray; percent : list Q }.

(** ** The state-and-exception monad of the pipelines *)

Section World.

Context (E : Externals).

(** The process state the pipelines read and write: numpy's global random
    generator and the files. *)
Record world : Type := mk_world {
  np_random : RandomState E;
  fs : list (string * file)
}.

Definition M (A : Type) : Type := world -> result A * world.

Definition ret {A} (a : A) : M A := fun w => (Ok a, w).

Definition bind {A B} (c : M A) (f : A -> M B) : M B :=
  fun w =>
    match c w with
    | (Ok a, w') => f a w'
    | (Raise e, w') => (Raise e, w')
    end.

Definition lift {A} (r : result A) : M A := fun w => (r, w).

Definition assert (b : bool) : result unit :=
  if b then Ok tt else Raise AssertionError.

(** [w, h, d = tuple(img.shape)]. *)
Definition unpack3 (s : list nat) : result (nat * nat * nat) :=
  match s with
  | [w; h; d] => Ok (w, h, d)
  | _ => Raise ValueError
  end.

(** [cv2.imread(imfile)]: [None] when the file is missing or not an image. *)
Definition cv2_imread (imfile : string) : M (option ndarray) :=
  fun w =>
    (Ok (match lookup imfile (fs w) with
         | Some (ImageFile p) => Some (imread_array p)
         | _ => None
         end), w).

(** [cv2.cvtColor(src, code)] for the two codes the source uses, on the
    three-channel arrays it passes. *)
Definition cv2_cvtColor (code : pixel -> pixel) (src : option ndarray) : result ndarray :=
  match src with
  | None => Raise cv2_error
  | Some a =>
      if Nat.eqb (last_axis a) 3 then Ok (mk_array (shape a) (map3 code (data a)))
      else Raise cv2_error
  end.

(** [Image.open(fname)]. *)
Definition Image_open (fname : string) : M picture :=
  fun w =>
    (match lookup fname (fs w) with
     | Some (ImageFile p) => Ok p
     | _ => Raise IOError
     end, w).

(** [image.resize((x, y), filter)]. *)
Definition Image_resize (p : picture) (x y : nat) (f : resample_filter) : picture :=
  mk_picture (pic_mode p) x y (resample E f p x y).

(** [image.thumbnail((sx, sy), filter)]. *)
Definition Image_thumbnail (p : picture) (sx sy : nat) (f : resample_filter) : picture :=
  let '(x, y) := thumbnail_size (pic_width p) (pic_height p) sx sy in
  if Nat.eqb x (pic_width p) && Nat.eqb y (pic_height p) then p
  else Image_resize p x y f.

(** [image.save(name)]. *)
Definition Image_save (p : picture) (name : string) : M unit :=
  fun w => (Ok tt, mk_world (np_random w) ((name, ImageFile p) :: fs w)).

(** [KMeans(n_clusters=k, n_jobs=-1).fit(X)]: no [random_state] is passed, so
    the clusterer draws from the global generator. *)
Definition KMeans_fit_global (X : ndarray) (k : Z) : M ndarray :=
  fun w =>
    let '(r, rs) := KMeans_fit E (np_random w) X k in
    (r, mk_world rs (fs w)).

Definition ShapeMismatch := Exn "ShapeMismatch".
Definition InvalidColorDepth := Exn "InvalidColorDepth".

Definition in_display_range (x : Q) : bool := Qle_bool 0 x && Qle_bool x 255.

Definition clamp_display (x : Q) : Q :=
  if Qle_bool x 0 then 0%Q else if Qle_bool 255 x then 255%Q else x.

(** Modelled from the spec: [utils.rgb2lab] is not among the sources.  The
    conversion to the perceptual space is pixel-wise and keeps the shape; it
    fails with ShapeMismatch when the last dimension is not 3 and with
    InvalidColorDepth when a display value is outside 0..255. *)
Definition rgb2lab (a : ndarray) : result ndarray :=
  if negb (Nat.eqb (last_axis a) 3) then Raise ShapeMismatch
  else if negb (forallb in_display_range (data a)) then Raise InvalidColorDepth
  else Ok (mk_array (shape a) (map3 (rgb2lab_pixel E) (data a))).

(** Modelled from the spec: [utils.lab2rgb] is not among the sources.  The
    conversion to the display space is pixel-wise, keeps the shape, accepts
    any real perceptual value, clamps its result to the display range and
    fails with ShapeMismatch when the last dimension is not 3. *)
Definition lab2rgb (a : ndarray) : result ndarray :=
  if negb (Nat.eqb (last_axis a) 3) then Raise ShapeMismatch
  else Ok (mk_array (shape a) (map clamp_display (map3 (lab2rgb_pixel E) (data a)))).

Definition times255 (x : Q) : Q := (x * 255)%Q.
Definition over255 (x : Q) : Q := (x / 255)%Q.

(** [percent, _ = np.histogram(labels, bins=len(maincolors), normed=True)]
    followed by [percent /= float(percent.sum())]. *)
Definition compute_percent (labels : list Z) (maincolors : ndarray) : result (list Q) :=
  bins <- len maincolors ;;;
  percent <- histogram_normed labels bins ;;;
  Ok (normalize percent).

End World.

Arguments mk_world {E} _ _.
Arguments np_random {E} _.
Arguments fs {E} _.
Arguments ret {E A} _ _.
Arguments bind {E A B} _ _ _.
Arguments lift {E A} _ _.

Notation "x <- c1 ;; c2" := (bind c1 (fun x => c2))
  (at level 61, c1 at next level, right associativity).
Notation "' pat <- c1 ;; c2" := (bind c1 (fun x => match x with pat => c2 end))
  (at level 61, pat pattern, c1 at next level, right associativity).

(** ** [paletti.py] *)

Module Paletti.
Section Source.

Context (E : Externals).

(** Lines 20-25 of [kmeans_palette]: decode, convert to Lab, scale, flatten. *)
Definition prepare (imfile : string) : M E ndarray :=
  src <- cv2_imread E imfile ;;
  origimg <- lift (cv2_cvtColor (COLOR_BGR2LAB E) src) ;;
  let img := amap over255 origimg in
  '(w, h, d) <- lift (unpack3 (shape img)) ;;
  _ <- lift (assert (Nat.eqb d 3)) ;;
  lift (reshape img [(w * h)%nat; d]).

(** Lines 27-47 of [kmeans_palette]. *)
Definition cluster_and_assemble (imarr : ndarray) (k : Z) : M E Palette :=
  centers <- KMeans_fit_global E imarr k ;;
  let labels := KMeans_predict E centers imarr in
  _ <- lift (if k <? 0 then Raise ValueError else Ok tt) ;;
  maincolors <- lift (reshape centers [Z.to_nat k; 1%nat; 3%nat]) ;;
  let maincolors := astype_uint8 (amap times255 maincolors) in
  maincolors <- lift (cv2_cvtColor (COLOR_LAB2RGB E) (Some maincolors)) ;;
  let maincolors := amap over255 maincolors in
  percent <- lift (compute_percent labels maincolors) ;;
  ret (mk_Palette (squeeze maincolors) percent).

Definition kmeans_palette (imfile : string) (k : Z) : M E Palette :=
  imarr <- prepare imfile ;;
  cluster_and_assemble imarr k.

(** Rows of colour triples as an array of shape (n, 3), divided by 255. *)
Definition color_array (cs : list (Z * Z * Z)) : ndarray :=
  mk_array [List.length cs; 3%nat]
    (flat_map (fun '(r, g, b) => map (fun v => over255 (inject_Z v)) [r; g; b]) cs).

Definition colorific_palette (imfile : string) (k : Z) : M E Palette :=
  p <- Image_open E imfile ;;
  let result := extract_colors E p k in
  _ <- lift (if Nat.eqb (List.length result) 0 then Raise IndexError else Ok tt) ;;
  let maincolors := color_array (map fst result) in
  let percent := normalize (map snd result) in
  ret (mk_Palette maincolors percent).

Definition rsize : nat := 150.

Definition pil_palette (imfile : string) (k : Z) : M E Palette :=
  image <- Image_open E imfile ;;
  let image := Image_resize E image rsize rsize NEAREST in
  (* convert('P', ...), putalpha(0), getcolors and x[1][:-1] *)
  let res := adaptive_colors E image k in
  _ <- lift (if Nat.ltb (rsize * rsize) (List.length res) then Raise TypeError else Ok tt) ;;
  let maincolors := color_array (map snd res) in
  let percent := normalize (map (fun x => inject_Z (fst x)) res) in
  ret (mk_Palette maincolors percent).

Definition ZeroDivisionError := Exn "ZeroDivisionError".

Definition pictaculous_palette (imfile : string) : M E Palette :=
  f <- (fun w => (match lookup imfile (fs w) with
                  | Some f => Ok f
                  | None => Raise IOError
                  end, w)) ;;
  maincolors <- lift (pictaculous_colors E f) ;;
  rows <- lift (rmap hex2rgb maincolors) ;;
  let n := List.length rows in
  let m := match rows with [] => 0%nat | r :: _ => List.length r end in
  _ <- lift (if forallb (fun r => Nat.eqb (List.length r) m) rows then Ok tt
             else Raise TypeError) ;;
  let arr := mk_array (if Nat.eqb n 0 then [0%nat] else [n; m])
                      (map (fun v => over255 (inject_Z v)) (List.concat rows)) in
  _ <- lift (if Nat.eqb n 0 then Raise ZeroDivisionError else Ok tt) ;;
  ret (mk_Palette arr (repeat (1 / inject_Z (Z.of_nat n))%Q n)).

(** [get_palette]: a method that matches none of the four names falls
    through the [if]/[elif] chain and the function returns [None]. *)
Definition get_palette (fname : string) (k : Z) (method color_format : string)
  : M E (option Palette) :=
  if String.eqb method "k-means" then
    p <- kmeans_palette fname k ;; ret (Some p)
  else if String.eqb method "colorific" then
    p <- colorific_palette fname k ;; ret (Some p)
  else if String.eqb method "pil" then
    p <- pil_palette fname k ;; ret (Some p)
  else if String.eqb method "pictaculous" then
    p <- pictaculous_palette fname ;; ret (Some p)
  else ret None.

(** [create_palette]: the strip of 50 x 300 pixels on which every colour gets
    a bar as wide as its share.  [cv2.rectangle(img, pt1, pt2, color, -1)],
    which paints one filled bar, is a collaborator.  The shares and the
    running column are doubles: the quotient, the product and the sum are
    each rounded, and [int] truncates what the sum was rounded to. *)
Variable cv2_rectangle : ndarray -> Z * Z -> Z * Z -> list Q -> ndarray.

(** [for (percent, color) in zip(percent, maincolors): ...]. *)
Fixpoint draw_bars (palette : ndarray) (start_x : Q) (pairs : list (Q * list Q))
  : ndarray :=
  match pairs with
  | [] => palette
  | (percent, color) :: rest =>
      let end_x := binary64 (start_x + binary64 (percent * 300)) in
      let palette :=
        cv2_rectangle palette (Qtruncate start_x, 0) (Qtruncate end_x, 50) color in
      draw_bars palette end_x rest
  end.

Definition create_palette (maincolors : list (list Q)) (percent : option (list Q))
  : result ndarray :=
  let palette := zeros [50; 300; 3]%nat in
  let start_x := 0%Q in
  percent <- match percent with
             | None =>
                 let n := List.length maincolors in
                 if Nat.eqb n 0 then Raise ZeroDivisionError
                 else Ok (repeat (binary64 (1 / inject_Z (Z.of_nat n))) n)
             | Some percent => Ok percent
             end ;;;
  Ok (draw_bars palette start_x (combine percent maincolors)).

(** What a line of [print_palette] shows for a colour: [str(c)] of the 8-bit
    array, or its hexadecimal code when [color_format] is ['hex']. *)
Inductive shown : Type :=
| Channels (c : ndarray)
| Code (h : string).

(** What [print_palette] writes: the heading, then one line per colour with
    the name of the format, the colour and the proportion (which ['{:.2}']
    renders).  The blank lines and the colorama codes are left out. *)
Inductive line : Type :=
| Heading (fname method : string)
| Entry (color_format : string) (c : shown) (p : Q).

(** [rgb2hex(tuple(c))]: the format string takes exactly three numbers. *)
Definition hex_code (c : ndarray) : result shown :=
  t <- tuple c ;;;
  match t with
  | [r; g; b] => Ok (Code (rgb2hex (r, g, b)))
  | _ => Raise TypeError
  end.

(** [for i, c in enumerate(maincolors): print(... palette.percent[i])]: the
    lines written, and the exception that ends the loop, if any. *)
Fixpoint print_entries (color_format : string) (percent : list Q) (i : nat)
         (maincolors : list shown) : list line * option exn :=
  match maincolors with
  | [] => ([], None)
  | c :: rest =>
      match nth_error percent i with
      | None => ([], Some IndexError)
      | Some p =>
          let '(ls, e) := print_entries color_format percent (S i) rest in
          (Entry color_format c p :: ls, e)
      end
  end.

(** [print_palette(fname, palette, method, color_format)]: the lines written
    to the standard output, and the exception raised, if any.  The product
    [c * 255] is a double, rounded before the cast to [uint8]. *)
Definition print_palette (fname : string) (palette : Palette)
           (method color_format : string) : list line * option exn :=
  match iterate (colors palette) with
  | Raise e => ([], Some e)
  | Ok cs =>
      let maincolors :=
        map (fun c => astype_uint8 (amap (fun v => binary64 (times255 v)) c)) cs in
      let heading := Heading fname method in
      match (if String.eqb color_format "hex" then rmap hex_code maincolors
             else Ok (map Channels maincolors)) with
      | Raise e => ([heading], Some e)
      | Ok maincolors =>
          let '(ls, e) := print_entries color_format (percent palette) 0 maincolors in
          (heading :: ls, e)
      end
  end.

End Source.
End Paletti.

(** ** [paletti/paletti.py] *)

Module Package.
Section Source.

Context (E : Externals).

Definition RSIZE : nat := 600.

(** Lines 22-27 of [kmeans_palette]: open, bound the size, convert to Lab,
    flatten.  The first two axis lengths are kept for the clustered image. *)
Definition prepare (fname : string) : M E (nat * nat * ndarray) :=
  origimg <- Image_open E fname ;;
  let origimg := Image_thumbnail E origimg RSIZE RSIZE ANTIALIAS in
  img <- lift (rgb2lab E (np_asarray origimg)) ;;
  '(w, h, d) <- lift (unpack3 (shape img)) ;;
  _ <- lift (assert (Nat.eqb d 3)) ;;
  imarr <- lift (reshape img [(w * h)%nat; d]) ;;
  ret (w, h, imarr).

(** [for i, lab in enumerate(labels): cluster_img[i] = maincolors[lab]]. *)
Fixpoint fill_clusters (maincolors : ndarray) (labels : list Z) (i : nat)
         (cluster_img : ndarray) : result ndarray :=
  match labels with
  | [] => Ok cluster_img
  | lab :: rest =>
      v <- getitem maincolors lab ;;;
      cluster_img' <- setitem cluster_img i v ;;;
      fill_clusters maincolors rest (S i) cluster_img'
  end.

Definition clustered_name (fname : string) : string :=
  splitext_root fname ++ "_clustered.png".

(** Lines 29-45 of [kmeans_palette]. *)
Definition cluster_and_assemble (fname : string) (w h : nat) (imarr : ndarray) (k : Z)
  : M E Palette :=
  centers <- KMeans_fit_global E imarr k ;;
  let labels := KMeans_predict E centers imarr in
  let maincolors := expand_dims0 centers in
  maincolors <- lift (lab2rgb E maincolors) ;;
  let maincolors := squeeze maincolors in
  let maincolors := amap over255 maincolors in
  (* Save clustered image *)
  let cluster_img := zeros (shape imarr) in
  cluster_img <- lift (fill_clusters maincolors labels 0 cluster_img) ;;
  cluster_img <- lift (reshape cluster_img [w; h; 3%nat]) ;;
  pic <- lift (Image_fromarray (astype_uint8 (amap times255 cluster_img))) ;;
  _ <- Image_save E pic (clustered_name fname) ;;
  (* Compute percentage of each main color *)
  percent <- lift (compute_percent labels maincolors) ;;
  ret (mk_Palette (squeeze maincolors) percent).

Definition kmeans_palette (fname : string) (k : Z) : M E Palette :=
  ' (w, h, imarr) <- prepare fname ;;
  cluster_and_assemble fname w h imarr k.

Definition colorific_palette := Paletti.colorific_palette E.

Definition pil_palette (fname : string) (k : Z) : M E Palette :=
  image <- Image_open E fname ;;
  let image := Image_thumbnail E image RSIZE RSIZE ANTIALIAS in
  (* convert('P', ...).convert('RGB') and getcolors *)
  let res := adaptive_colors E image k in
  _ <- lift (if Nat.ltb (RSIZE * RSIZE) (List.length res) then Raise TypeError else Ok tt) ;;
  let maincolors := Paletti.color_array (map snd res) in
  let percent := normalize (map (fun x => inject_Z (fst x)) res) in
  ret (mk_Palette maincolors percent).

Definition pictaculous_palette := Paletti.pictaculous_palette E.

Definition get_palette (fname : string) (k : Z) (method : string) : M E (option Palette) :=
  if String.eqb method "k-means" then
    p <- kmeans_palette fname k ;; ret (Some p)
  else if String.eqb method "colorific" then
    p <- colorific_palette fname k ;; ret (Some p)
  else if String.eqb method "pil" then
    p <- pil_palette fname k ;; ret (Some p)
  else if String.eqb method "pictaculous" then
    p <- pictaculous_palette fname ;; ret (Some p)
  else ret None.

(** [s.endswith(suffix)]. *)
Definition endswith (s suffix : string) : bool :=
  Nat.leb (String.length suffix) (String.length s) &&
  String.eqb (substring (String.length s - String.length suffix) (String.length suffix) s)
             suffix.

(** [ImageDraw.Draw(img).rectangle([(x1, y1), (x2, y2)], fill=...)] is a
    collaborator. *)
Variable draw_rectangle : picture -> Q * Q -> Q * Q -> list Z -> result picture.

(** [Image.new('RGB', size)]: a black image. *)
Definition Image_new_RGB (width height : nat) : picture :=
  mk_picture RGB width height (repeat 0 (height * width * 3)).

(** [for c, p in zip(maincolors, palette.percent): ...]. *)
Fixpoint draw_bars (img : picture) (width height : nat) (start_x : Q)
         (pairs : list (ndarray * Q)) : result picture :=
  match pairs with
  | [] => Ok img
  | (c, p) :: rest =>
      let end_x := (start_x + p * inject_Z (Z.of_nat width))%Q in
      fill <- tuple c ;;;
      img <- draw_rectangle img (start_x, 0%Q)
                            (end_x, inject_Z (Z.of_nat height - 1)) fill ;;;
      draw_bars img width height end_x rest
  end.

(** The name under which [create_palette] saves the strip. *)
Definition palette_name (outname : string) : string :=
  if endswith outname ".png" then outname
  else splitext_root outname ++ "_palette.png".

(** [create_palette(palette, outname, save, size)]: returns the image when
    [save] is false, and [None] after saving it otherwise.  (The line the
    function prints is left out.) *)
Definition create_palette (palette : Palette) (outname : string) (save : bool)
           (size : nat * nat) : M E (option picture) :=
  let '(width, height) := size in
  let img := Image_new_RGB width height in
  cs <- lift (iterate (colors palette)) ;;
  let maincolors := map (fun c => astype_uint8 (amap times255 c)) cs in
  img <- lift (draw_bars img width height 0%Q (combine maincolors (percent palette))) ;;
  if negb save then ret (Some img)
  else
    _ <- Image_save E img (palette_name outname) ;;
    ret None.

(** [rgb2hex] is imported from [utils], which is a collaborator here. *)
Variable utils_rgb2hex : list Z -> result string.

(** Lines 101-105 of [print_palette]: the 8-bit colours, their hexadecimal
    codes and the proportions, row by row, as they go into the table; the
    format of the first cell, with its three fields, needs a tuple of at
    least three numbers.  (The layout of the cells and the printing belong to
    PrettyTable and colorama.) *)
Definition print_palette_rows (palette : Palette)
  : result (list (list Z * string * Q)) :=
  cs <- iterate (colors palette) ;;;
  let rgbs := map (fun c => astype_uint8 (amap times255 c)) cs in
  hexs <- rmap (fun c => t <- tuple c ;;; utils_rgb2hex t) rgbs ;;;
  rmap (fun '(rgb, h, p) =>
          t <- tuple rgb ;;;
          if Nat.ltb (List.length t) 3 then Raise IndexError else Ok (t, h, p))
       (combine (combine rgbs hexs) (percent palette)).

End Source.
End Package.

(** ** An executable instance of the collaborators

    Small stand-ins on which the pipelines can be run: colour conversions that
    permute the channels, nearest-neighbour resampling, and a clusterer that
    takes [k] samples as centres, starting at the position the generator
    state selects, and assigns every sample to its nearest centre. *)

Module Sample.

Fixpoint chunks (fuel d : nat) (l : list Q) : list (list Q) :=
  match fuel with
  | O => []
  | S fuel' =>
      match l with
      | [] => []
      | _ => firstn d l :: chunks fuel' d (skipn d l)
      end
  end.

Definition rows (a : ndarray) : list (list Q) :=
  chunks (List.length (data a)) (last_axis a) (data a).

Fixpoint dist2 (x y : list Q) : Q :=
  match x, y with
  | a :: x', b :: y' => ((a - b) * (a - b) + dist2 x' y')%Q
  | _, _ => 0%Q
  end.

(** Index of the first nearest centre. *)
Fixpoint nearest (x : list Q) (cs : list (list Q)) (i : Z) (best : Z) (bd : Q) : Z :=
  match cs with
  | [] => best
  | c :: cs' =>
      let d := dist2 x c in
      if Qle_bool bd d then nearest x cs' (i + 1) best bd
      else nearest x cs' (i + 1) i d
  end.

Definition predict (centers X : ndarray) : list Z :=
  match rows centers with
  | [] => []
  | c :: cs => map (fun x => nearest x cs 1 0 (dist2 x c)) (rows X)
  end.

Definition rotate {A} (n : nat) (l : list A) : list A := skipn n l ++ firstn n l.

Definition fit (rs : nat) (X : ndarray) (k : Z) : result ndarray * nat :=
  let r := rows X in
  let n := List.length r in
  if (k <=? 0) || (Z.of_nat n <? k) then (Raise ValueError, rs)
  else
    let cs := firstn (Z.to_nat k) (rotate (rs mod n) r) in
    (Ok (mk_array [Z.to_nat k; last_axis X] (List.concat cs)), S rs).

Definition pixel_at (p : picture) (i j : nat) : list Z :=
  let b := bands (pic_mode p) in
  firstn b (skipn ((j * pic_width p + i) * b) (pic_data p)).

Definition scale (i size new : nat) : nat :=
  Z.to_nat (Z.of_nat i * Z.of_nat size / Z.of_nat new).

Definition nearest_neighbour (p : picture) (x y : nat) : list Z :=
  flat_map (fun j =>
    flat_map (fun i => pixel_at p (scale i (pic_width p) x) (scale j (pic_height p) y))
             (seq 0 x)) (seq 0 y).

Definition externals : Externals := {|
  RandomState := nat;
  COLOR_BGR2LAB := fun '(b, g, r) => (g, r, b);
  COLOR_LAB2RGB := fun '(l, a, b) => (a, l, b);
  rgb2lab_pixel := fun '(r, g, b) => (g, r, b);
  lab2rgb_pixel := fun '(l, a, b) => (a, l, b);
  resample := fun _ => nearest_neighbour;
  adaptive_colors := fun p _ =>
    match pixel_at p 0 0 with
    | [r; g; b] => [(Z.of_nat (pic_width p * pic_height p), (r, g, b))]
    | _ => []
    end;
  KMeans_fit := fit;
  KMeans_predict := predict;
  extract_colors := fun _ _ => [];
  pictaculous_colors := fun _ => Ok ["#ff0000"; "#00ff00"]
|}.

(** A 2 x 2 colour image: two red pixels over a green and a blue one. *)
Definition rgb_2x2 : picture :=
  mk_picture RGB 2 2 [255; 0; 0;  255; 0; 0;  0; 255; 0;  0; 0; 255].

(** The same image with an alpha channel. *)
Definition rgba_2x2 : picture :=
  mk_picture RGBA 2 2 [255; 0; 0; 255;  255; 0; 0; 255;  0; 255; 0; 255;  0; 0; 255; 128].

Definition disk : list (string * file) :=
  [("a.png", ImageFile rgb_2x2); ("b.png", ImageFile rgba_2x2); ("notes.txt", OtherFile)].

Definition start (seed : nat) : world externals := mk_world (seed : RandomState externals) disk.





End Sample.

(** ** Instances whose colour services answer, or stay silent *)

Module Service.

Definition with_answers (colours : list ((Z * Z * Z) * Q)) (codes : list string)
  : Externals := {|
  RandomState := RandomState Sample.externals;
  COLOR_BGR2LAB := COLOR_BGR2LAB Sample.externals;
  COLOR_LAB2RGB := COLOR_LAB2RGB Sample.externals;
  rgb2lab_pixel := rgb2lab_pixel Sample.externals;
  lab2rgb_pixel := lab2rgb_pixel Sample.externals;
  resample := resample Sample.externals;
  adaptive_colors := adaptive_colors Sample.externals;
  KMeans_fit := KMeans_fit Sample.externals;
  KMeans_predict := KMeans_predict Sample.externals;
  extract_colors := fun _ _ => colours;
  pictaculous_colors := fun _ => Ok codes
|}.

Definition answering : Externals :=
  with_answers [((255, 0, 0), 3 # 4); ((0, 0, 255), 1 # 2)] ["#ff0000"; "0000ff"; "#12ab9f"].

Definition silent : Externals := with_answers [] [].

(** An instance in which PIL's quantiser reports the given counts and
    colours. *)
Definition with_counts (found : list (Z * (Z * Z * Z))) : Externals := {|
  RandomState := RandomState Sample.externals;
  COLOR_BGR2LAB := COLOR_BGR2LAB Sample.externals;
  COLOR_LAB2RGB := COLOR_LAB2RGB Sample.externals;
  rgb2lab_pixel := rgb2lab_pixel Sample.externals;
  lab2rgb_pixel := lab2rgb_pixel Sample.externals;
  resample := resample Sample.externals;
  adaptive_colors := fun _ _ => found;
  KMeans_fit := KMeans_fit Sample.externals;
  KMeans_predict := KMeans_predict Sample.externals;
  extract_colors := extract_colors Sample.externals;
  pictaculous_colors := pictaculous_colors Sample.externals
|}.

(** Three red pixels for every blue one. *)
Definition two_tone : Externals := with_counts [(3, (255, 0, 0)); (1, (0, 0, 255))].

Definition start (E : Externals) (rs : RandomState E) : world E := mk_world rs Sample.disk.

End Service.

(** ** Notions used in the statements *)

Definition Zsum (l : list Z) : Z := fold_right Z.add 0 l.

(** The bins the labels fall into. *)
Definition bin_indices (labels : list Z) (bins : nat) : list Z :=
  let '(lo, hi) := outer_edges labels in map (bin_index lo hi bins) labels.

(** The labels take the least and the greatest of the [k] values. *)
Definition spans (labels : list Z) (k : nat) : Prop :=
  Forall (fun l => 0 <= l < Z.of_nat k) labels /\
  In 0 labels /\ In (Z.of_nat k - 1) labels.

(** What the round trip needs of one channel value: it prints as two
    characters, the first is not a hash sign, and the two characters read
    back as the value. *)
Definition byte_check (x : Z) : bool :=
  match fmt_02x x with
  | String c1 (String c2 EmptyString) =>
      negb (Ascii.eqb c1 "#") &&
      match int16 (String c1 (String c2 EmptyString)) with
      | Ok y => y =? x
      | Raise _ => false
      end
  | _ => false
  end.

Definition known_method (method : string) : Prop :=
  method = "k-means" \/ method = "colorific" \/ method = "pil" \/ method = "pictaculous".


(** The colours of the pixels of a decoded image in row-major order; a grey
    value stands for three equal channels and an alpha value is left out. *)
Fixpoint rgb_pixels (m : mode) (l : list Z) : list (Z * Z * Z) :=
  match m, l with
  | L, v :: rest => (v, v, v) :: rgb_pixels m rest
  | RGB, r :: g :: b :: rest => (r, g, b) :: rgb_pixels m rest
  | RGBA, r :: g :: b :: _ :: rest => (r, g, b) :: rgb_pixels m rest
  | _, _ => []
  end.

(** The sample that [paletti.py] derives from one pixel. *)
Definition bgr_sample (E : Externals) (c : Z * Z * Z) : list Q :=
  let '(r, g, b) := c in
  let '(x, y, z) := COLOR_BGR2LAB E (inject_Z b, inject_Z g, inject_Z r) in
  [over255 x; over255 y; over255 z].

(** The sample that [paletti/paletti.py] derives from one pixel. *)
Definition rgb_sample (E : Externals) (c : Z * Z * Z) : list Q :=
  let '(r, g, b) := c in
  let '(x, y, z) := rgb2lab_pixel E (inject_Z r, inject_Z g, inject_Z b) in
  [x; y; z].

(** A computation that leaves the file [g] as it is. *)
Definition keeps_file {E : Externals} {A} (g : string) (c : M E A) : Prop :=
  forall w, lookup g (fs (snd (c w))) = lookup g (fs w).

(** A computation that writes no file at all. *)
Definition writes_nothing {E : Externals} {A} (c : M E A) : Prop :=
  forall w, fs (snd (c w)) = fs w.

(** The digits [rgb2hex] prints. *)
Definition is_lower_hex (c : ascii) : bool :=
  existsb (Ascii.eqb c) (list_ascii_of_string "0123456789abcdef").

(** The bars that the loop of [create_palette] paints on a strip of the
    given width: first column, last column, colour. *)
Fixpoint bars_of {C} (width : Q) (start_x : Q) (pairs : list (Q * C))
  : list (Z * Z * C) :=
  match pairs with
  | [] => []
  | (p, c) :: rest =>
      let end_x := binary64 (start_x + binary64 (p * width)) in
      (Qtruncate start_x, Qtruncate end_x, c) :: bars_of width end_x rest
  end.

(** Every bar begins in the column in which the one before it ended. *)
Fixpoint contiguous {C} (start : Z) (bars : list (Z * Z * C)) : Prop :=
  match bars with
  | [] => True
  | (a, b, _) :: rest => a = start /\ contiguous b rest
  end.

(** The column in which the last bar ends. *)
Definition last_column {C} (start : Z) (bars : list (Z * Z * C)) : Z :=
  fold_left (fun _ bar => snd (fst bar)) bars start.

(** * Properties *)

(** ** Proportions from the histogram of the labels *)

Lemma Zsum_cons a l : Zsum (a :: l) = a + Zsum l.
Proof. reflexivity. Qed.

Lemma Qsum_cons a l : Qsum (a :: l) = (a + Qsum l)%Q.
Proof. reflexivity. Qed.

Lemma Zsum_map_add {A} (f g : A -> Z) (l : list A) :
  Zsum (map (fun j => f j + g j) l) = Zsum (map f l) + Zsum (map g l).
Proof.
  induction l as [|a l IH]; [reflexivity|].
  rewrite !map_cons, !Zsum_cons, IH. lia.
Qed.

Lemma Zsum_indicator (i : Z) (b a : nat) :
  Zsum (map (fun j => if i =? Z.of_nat j then 1 else 0) (seq a b)) =
  if (Z.of_nat a <=? i) && (i <? Z.of_nat (a + b)) then 1 else 0.
Proof.
  revert a. induction b as [|b IH]; intros a.
  - cbn [seq map]. change (Zsum []) with 0.
    destruct (Z.leb_spec (Z.of_nat a) i), (Z.ltb_spec i (Z.of_nat (a + 0))); cbn; lia.
  - cbn [seq]. rewrite map_cons, Zsum_cons, IH.
    destruct (Z.eqb_spec i (Z.of_nat a)),
             (Z.leb_spec (Z.of_nat (S a)) i), (Z.ltb_spec i (Z.of_nat (S a + b))),
             (Z.leb_spec (Z.of_nat a) i), (Z.ltb_spec i (Z.of_nat (a + S b))); cbn; lia.
Qed.

Lemma count_bin_cons (i : Z) (idx : list Z) (j : nat) :
  count_bin (i :: idx) j = (if i =? Z.of_nat j then 1 else 0) + count_bin idx j.
Proof.
  unfold count_bin. cbn [filter]. destruct (i =? Z.of_nat j); cbn [List.length]; lia.
Qed.

Lemma count_bin_nonneg idx j : 0 <= count_bin idx j.
Proof. unfold count_bin. lia. Qed.

Lemma Zsum_count_bin (idx : list Z) (b : nat) :
  Forall (fun i => 0 <= i < Z.of_nat b) idx ->
  Zsum (map (count_bin idx) (seq 0 b)) = Z.of_nat (List.length idx).
Proof.
  induction 1 as [|i idx Hi _ IH].
  - cbn [List.length]. induction (seq 0 b) as [|a l IHl]; [reflexivity|].
    rewrite map_cons, Zsum_cons, IHl. reflexivity.
  - rewrite (map_ext _ _ (count_bin_cons i idx)), Zsum_map_add, IH, Zsum_indicator.
    destruct (Z.leb_spec (Z.of_nat 0) i), (Z.ltb_spec i (Z.of_nat (0 + b)));
      cbn [andb List.length]; lia.
Qed.

Lemma Qsum_scaled (c : nat -> Z) (w t : Q) (l : list nat) :
  ~ w == 0 -> ~ t == 0 ->
  (Qsum (map (fun j => inject_Z (c j) / w / t) l) == inject_Z (Zsum (map c l)) / w / t)%Q.
Proof.
  intros Hw Ht. induction l as [|a l IH].
  - cbn. field. split; assumption.
  - rewrite !map_cons, Qsum_cons, Zsum_cons, IH, inject_Z_plus. field. split; assumption.
Qed.

Lemma Zmin_list_le x l : Zmin_list x l <= x /\ Forall (fun y => Zmin_list x l <= y) l.
Proof.
  unfold Zmin_list, Zmax_list.
  induction l as [|a l [IH1 IH2]]; cbn; [split; [lia|constructor]|].
  split; [lia|]. constructor; [lia|].
  eapply Forall_impl; [|exact IH2]. cbn. intros; lia.
Qed.

Lemma Zmax_list_ge x l : x <= Zmax_list x l /\ Forall (fun y => y <= Zmax_list x l) l.
Proof.
  unfold Zmin_list, Zmax_list.
  induction l as [|a l [IH1 IH2]]; cbn; [split; [lia|constructor]|].
  split; [lia|]. constructor; [lia|].
  eapply Forall_impl; [|exact IH2]. cbn. intros; lia.
Qed.

Lemma outer_edges_spec (a : list Z) :
  a <> [] ->
  exists lo hi, outer_edges a = (lo, hi) /\ (lo < hi)%Q /\
                Forall (fun x => (lo <= inject_Z x <= hi)%Q) a.
Proof.
  destruct a as [|x xs]; [congruence|intros _].
  unfold outer_edges.
  destruct (Zmin_list_le x xs) as [Hm1 Hm2], (Zmax_list_ge x xs) as [HM1 HM2].
  set (lo := Zmin_list x xs) in *. set (hi := Zmax_list x xs) in *.
  assert (Hall : Forall (fun y => lo <= y <= hi) (x :: xs)).
  { constructor; [lia|]. rewrite Forall_forall in *. intros y Hy.
    specialize (Hm2 y Hy). specialize (HM2 y Hy). cbn in *. lia. }
  destruct (Z.eqb_spec lo hi) as [Heq|Hne].
  - eexists _, _. split; [reflexivity|]. split.
    + rewrite Heq. unfold Qlt, Qminus, Qplus, inject_Z. cbn. lia.
    + eapply Forall_impl; [|exact Hall]. cbn. intros y Hy.
      assert (y = hi) by lia. subst y. rewrite Heq.
      unfold Qle, Qminus, Qplus, inject_Z. cbn. lia.
  - eexists _, _. split; [reflexivity|]. split.
    + rewrite <- Zlt_Qlt. lia.
    + eapply Forall_impl; [|exact Hall]. cbn. intros y Hy.
      rewrite <- !Zle_Qle. lia.
Qed.

Lemma bin_index_range (lo hi : Q) (b : nat) (x : Z) :
  (lo < hi)%Q -> (0 < b)%nat -> (lo <= inject_Z x)%Q ->
  0 <= bin_index lo hi b x < Z.of_nat b.
Proof.
  intros Hlt Hb Hlo. unfold bin_index.
  assert (0 <= Qfloor ((inject_Z x - lo) * inject_Z (Z.of_nat b) / (hi - lo))).
  { change 0 with (Qfloor 0). apply Qfloor_resp_le.
    apply Qle_shift_div_l.
    - unfold Qminus. rewrite <- Qlt_minus_iff. exact Hlt.
    - rewrite Qmult_0_l. apply Qmult_le_0_compat.
      + unfold Qminus. rewrite <- Qle_minus_iff. exact Hlo.
      + change 0%Q with (inject_Z 0). rewrite <- Zle_Qle. lia. }
  lia.
Qed.

Lemma Forall2_map_same {A B} (R : B -> B -> Prop) (f g : A -> B) (l : list A) :
  (forall x, In x l -> R (f x) (g x)) -> Forall2 R (map f l) (map g l).
Proof.
  induction l as [|a l IH]; intros H; cbn; constructor.
  - apply H. now left.
  - apply IH. intros x Hx. apply H. now right.
Qed.



Lemma bin_indices_range labels b :
  labels <> [] -> (0 < b)%nat ->
  Forall (fun i => 0 <= i < Z.of_nat b) (bin_indices labels b).
Proof.
  intros Hne Hb. unfold bin_indices.
  destruct (outer_edges_spec labels Hne) as (lo & hi & -> & Hlt & Hall).
  apply Forall_map. eapply Forall_impl; [|exact Hall]. cbn.
  intros x [Hx _]. now apply bin_index_range.
Qed.

Lemma percent_of_histogram (labels : list Z) (b : nat) :
  labels <> [] -> (0 < b)%nat ->
  exists hist,
    histogram_normed labels b = Ok hist /\
    Forall2 Qeq (normalize hist)
      (map (fun j => inject_Z (count_bin (bin_indices labels b) j)
                     / inject_Z (Z.of_nat (List.length labels)))%Q (seq 0 b)).
Proof.
  intros Hne Hb.
  pose proof (bin_indices_range labels b Hne Hb) as Hrange.
  unfold histogram_normed, bin_indices in *.
  destruct (Nat.eqb_spec b 0) as [->|_]; [lia|].
  destruct (outer_edges_spec labels Hne) as (lo & hi & Heq & Hlt & Hall).
  rewrite Heq in *.
  eexists. split; [reflexivity|].
  set (idx := map (bin_index lo hi b) labels) in *.
  set (w := ((hi - lo) / inject_Z (Z.of_nat b))%Q).
  set (t := inject_Z (Z.of_nat (List.length labels))).
  assert (Hw : ~ w == 0).
  { subst w. intros H0.
    assert (0 < (hi - lo) / inject_Z (Z.of_nat b))%Q as Hpos.
    { apply Qlt_shift_div_l.
      - change 0%Q with (inject_Z 0). rewrite <- Zlt_Qlt. lia.
      - rewrite Qmult_0_l. unfold Qminus. rewrite <- Qlt_minus_iff. exact Hlt. }
    rewrite H0 in Hpos. discriminate Hpos. }
  assert (Ht : ~ t == 0).
  { subst t. intros H0. unfold Qeq, inject_Z in H0. cbn [Qnum Qden] in H0.
    destruct labels; [congruence|cbn [List.length] in H0; lia]. }
  unfold normalize. rewrite map_map.
  apply Forall2_map_same. intros j _.
  rewrite (Qsum_scaled (count_bin idx) w t _ Hw Ht).
  rewrite (Zsum_count_bin idx b Hrange).
  subst idx. rewrite length_map. fold t. field. repeat split; assumption.
Qed.

Lemma Qfloor_unique (z : Z) (q : Q) :
  (inject_Z z <= q)%Q -> (q < inject_Z (z + 1))%Q -> Qfloor q = z.
Proof.
  intros Hle Hlt.
  assert (z <= Qfloor q).
  { pose proof (Qfloor_resp_le _ _ Hle) as H. now rewrite Qfloor_Z in H. }
  assert (Qfloor q < z + 1).
  { rewrite Zlt_Qlt. eapply Qle_lt_trans; [apply Qfloor_le|exact Hlt]. }
  lia.
Qed.

Lemma Zmin_list_repeat (x : Z) (n : nat) : Zmin_list x (repeat x n) = x.
Proof. unfold Zmin_list. induction n; cbn; [reflexivity|]. rewrite IHn. lia. Qed.

Lemma Zmax_list_repeat (x : Z) (n : nat) : Zmax_list x (repeat x n) = x.
Proof. unfold Zmax_list. induction n; cbn; [reflexivity|]. rewrite IHn. lia. Qed.

Lemma outer_edges_repeat (x : Z) (n : nat) :
  outer_edges (repeat x (S n)) = (inject_Z x - (1 # 2), inject_Z x + (1 # 2))%Q.
Proof.
  cbn [repeat outer_edges].
  rewrite Zmin_list_repeat, Zmax_list_repeat, Z.eqb_refl. reflexivity.
Qed.

Lemma bin_index_middle (x : Z) (b : nat) :
  (0 < b)%nat ->
  bin_index (inject_Z x - (1 # 2)) (inject_Z x + (1 # 2)) b x = Z.of_nat b / 2.
Proof.
  intros Hb. unfold bin_index.
  assert (Hq : ((inject_Z x - (inject_Z x - (1 # 2))) * inject_Z (Z.of_nat b)
                / (inject_Z x + (1 # 2) - (inject_Z x - (1 # 2)))
                == Z.of_nat b # 2)%Q).
  { assert (Hd : (inject_Z x + (1 # 2) - (inject_Z x - (1 # 2)) == 1)%Q) by ring.
    rewrite Hd, (Qmake_Qdiv (Z.of_nat b) 2). field. }
  rewrite Hq. change (Qfloor (Z.of_nat b # 2)) with (Z.of_nat b / 2).
  assert (Z.of_nat b / 2 <= Z.of_nat b - 1) by (Z.div_mod_to_equations; lia).
  lia.
Qed.

Lemma bin_indices_repeat (x : Z) (n b : nat) :
  (0 < b)%nat -> bin_indices (repeat x (S n)) b = repeat (Z.of_nat b / 2) (S n).
Proof.
  intros Hb. unfold bin_indices. rewrite outer_edges_repeat.
  generalize (S n) as m. intros m.
  induction m as [|m IH]; [reflexivity|].
  cbn [repeat map]. rewrite IH. f_equal. now apply bin_index_middle.
Qed.

Lemma count_bin_repeat (m : Z) (n j : nat) :
  count_bin (repeat m n) j = if m =? Z.of_nat j then Z.of_nat n else 0.
Proof.
  induction n as [|n IH].
  - cbn. now destruct (m =? Z.of_nat j).
  - cbn [repeat]. rewrite count_bin_cons, IH. destruct (m =? Z.of_nat j); lia.
Qed.

Lemma Zmin_list_lower (c x : Z) (l : list Z) :
  c <= x -> Forall (fun y => c <= y) l -> c <= Zmin_list x l.
Proof.
  intros Hx. unfold Zmin_list. induction 1; cbn; lia.
Qed.

Lemma Zmax_list_upper (c x : Z) (l : list Z) :
  x <= c -> Forall (fun y => y <= c) l -> Zmax_list x l <= c.
Proof.
  intros Hx. unfold Zmax_list. induction 1; cbn; lia.
Qed.



Lemma outer_edges_spans (labels : list Z) (k : nat) :
  (2 <= k)%nat -> spans labels k ->
  outer_edges labels = (inject_Z 0, inject_Z (Z.of_nat k - 1)).
Proof.
  intros Hk (Hall & H0 & Hk1).
  destruct labels as [|x xs]; [destruct H0|].
  unfold outer_edges.
  destruct (Zmin_list_le x xs) as [Hm1 Hm2], (Zmax_list_ge x xs) as [HM1 HM2].
  inversion Hall as [|? ? Hx Hxs]; subst.
  assert (0 <= Zmin_list x xs).
  { apply Zmin_list_lower; [lia|]. eapply Forall_impl; [|exact Hxs]. cbn. intros; lia. }
  assert (Zmax_list x xs <= Z.of_nat k - 1).
  { apply Zmax_list_upper; [lia|]. eapply Forall_impl; [|exact Hxs]. cbn. intros; lia. }
  assert (Zmin_list x xs <= 0).
  { destruct H0 as [<-|H0]; [lia|]. rewrite Forall_forall in Hm2. now apply Hm2. }
  assert (Z.of_nat k - 1 <= Zmax_list x xs).
  { destruct Hk1 as [<-|Hk1]; [lia|]. rewrite Forall_forall in HM2. now apply HM2. }
  replace (Zmin_list x xs) with 0 by lia.
  replace (Zmax_list x xs) with (Z.of_nat k - 1) by lia.
  destruct (Z.eqb_spec 0 (Z.of_nat k - 1)); [lia|reflexivity].
Qed.

Lemma Qfloor_div (a b : Z) :
  0 < b -> Qfloor (inject_Z a / inject_Z b) = a / b.
Proof.
  intros Hb. destruct b as [|p|p]; try lia.
  rewrite <- (Qmake_Qdiv a p). reflexivity.
Qed.

Lemma bin_index_identity (k : nat) (x : Z) :
  (2 <= k)%nat -> 0 <= x < Z.of_nat k ->
  bin_index (inject_Z 0) (inject_Z (Z.of_nat k - 1)) k x = x.
Proof.
  intros Hk Hx. unfold bin_index.
  assert (Hq : ((inject_Z x - inject_Z 0) * inject_Z (Z.of_nat k)
                / (inject_Z (Z.of_nat k - 1) - inject_Z 0)
                == inject_Z (x * Z.of_nat k) / inject_Z (Z.of_nat k - 1))%Q).
  { rewrite inject_Z_mult. unfold Qminus. change (- inject_Z 0)%Q with 0%Q.
    rewrite !Qplus_0_r. reflexivity. }
  rewrite Hq, Qfloor_div by lia.
  destruct (Z.eq_dec x (Z.of_nat k - 1)) as [->|Hne].
  - rewrite Z.mul_comm, Z.div_mul by lia. lia.
  - rewrite <- (Z.div_unique (x * Z.of_nat k) (Z.of_nat k - 1) x x); [lia| |lia].
    left. lia.
Qed.

Lemma bin_indices_spans (labels : list Z) (k : nat) :
  (2 <= k)%nat -> spans labels k -> bin_indices labels k = labels.
Proof.
  intros Hk Hs. unfold bin_indices. rewrite (outer_edges_spans labels k Hk Hs).
  destruct Hs as (Hall & _ & _).
  induction Hall as [|x xs Hx _ IH]; [reflexivity|].
  cbn [map]. rewrite IH. f_equal. now apply bin_index_identity.
Qed.

Lemma Qsum_Forall2 (l l' : list Q) : Forall2 Qeq l l' -> Qsum l == Qsum l'.
Proof.
  induction 1 as [|x y l l' Hxy _ IH]; [reflexivity|].
  rewrite !Qsum_cons, Hxy, IH. reflexivity.
Qed.

Lemma Qsum_counts (c : nat -> Z) (t : Q) (l : list nat) :
  ~ t == 0 ->
  (Qsum (map (fun j => inject_Z (c j) / t) l) == inject_Z (Zsum (map c l)) / t)%Q.
Proof.
  intros Ht. induction l as [|a l IH].
  - cbn. field. assumption.
  - rewrite !map_cons, Qsum_cons, Zsum_cons, IH, inject_Z_plus. field. assumption.
Qed.

Lemma length_nonzero {A} (l : list A) :
  l <> [] -> ~ inject_Z (Z.of_nat (List.length l)) == 0.
Proof.
  intros Hne H0. unfold Qeq, inject_Z in H0. cbn [Qnum Qden] in H0.
  destruct l; [congruence|cbn [List.length] in H0; lia].
Qed.

(** The proportions that [compute_percent] returns: one per bin, each the
    share of the labels that fall into the bin; they are non-negative and add
    up to one. *)
Lemma compute_percent_spec (labels : list Z) (maincolors : ndarray) (b : nat) :
  labels <> [] -> len maincolors = Ok b -> (0 < b)%nat ->
  exists percent,
    compute_percent labels maincolors = Ok percent /\
    List.length percent = b /\
    Forall2 Qeq percent
      (map (fun j => inject_Z (count_bin (bin_indices labels b) j)
                     / inject_Z (Z.of_nat (List.length labels)))%Q (seq 0 b)) /\
    Forall (fun p => 0 <= p)%Q percent /\
    Qsum percent == 1.
Proof.
  intros Hne Hlen Hb.
  destruct (percent_of_histogram labels b Hne Hb) as (hist & Hh & Hp).
  exists (normalize hist). unfold compute_percent. rewrite Hlen. cbn [rbind].
  rewrite Hh. cbn [rbind].
  pose proof (length_nonzero labels Hne) as Ht.
  split; [reflexivity|]. split; [|split; [exact Hp|split]].
  - apply Forall2_length in Hp. now rewrite Hp, length_map, length_seq.
  - revert Hp. generalize (normalize hist) as p. generalize (seq 0 b) as l.
    induction l as [|j l IH]; intros p Hp; inversion Hp as [|x y p' l' Hxy Hrest]; subst;
      constructor.
    + rewrite Hxy. apply Qle_shift_div_l.
      * destruct (Qlt_le_dec 0 (inject_Z (Z.of_nat (List.length labels)))) as [H|H];
          [exact H|].
        exfalso. apply Ht. apply Qle_antisym; [exact H|].
        change 0%Q with (inject_Z 0). rewrite <- Zle_Qle. lia.
      * rewrite Qmult_0_l. change 0%Q with (inject_Z 0). rewrite <- Zle_Qle.
        apply count_bin_nonneg.
    + now apply IH.
  - rewrite (Qsum_Forall2 _ _ Hp).
    rewrite (Qsum_counts (count_bin (bin_indices labels b)) _ _ Ht).
    rewrite (Zsum_count_bin _ b (bin_indices_range labels b Hne Hb)).
    unfold bin_indices. destruct (outer_edges labels). rewrite length_map.
    field. exact Ht.
Qed.


Lemma Forall2_Qeq_trans (l1 l2 l3 : list Q) :
  Forall2 Qeq l1 l2 -> Forall2 Qeq l2 l3 -> Forall2 Qeq l1 l3.
Proof.
  intros H. revert l3. induction H as [|x y l1 l2 Hxy _ IH]; intros l3 H3;
    inversion H3; subst; constructor.
  - now rewrite Hxy.
  - now apply IH.
Qed.

Lemma Forall_constant_repeat (x : Z) (l : list Z) :
  Forall (fun y => y = x) l -> l = repeat x (List.length l).
Proof. induction 1 as [|y l -> _ IH]; cbn; [reflexivity|]. now rewrite <- IH. Qed.

(** When all labels are equal, the whole mass lands in the middle bin,
    whatever the value of the label. *)
Lemma compute_percent_constant (x : Z) (n b : nat) (maincolors : ndarray) :
  len maincolors = Ok b -> (0 < b)%nat ->
  exists percent,
    compute_percent (repeat x (S n)) maincolors = Ok percent /\
    Forall2 Qeq percent
      (map (fun j => if Z.of_nat b / 2 =? Z.of_nat j then 1 else 0)%Q (seq 0 b)).
Proof.
  intros Hlen Hb.
  assert (Hne : repeat x (S n) <> []) by discriminate.
  destruct (compute_percent_spec _ _ _ Hne Hlen Hb) as (percent & Hc & _ & Hp & _).
  exists percent. split; [exact Hc|].
  eapply Forall2_Qeq_trans; [exact Hp|].
  apply Forall2_map_same. intros j _.
  rewrite bin_indices_repeat, count_bin_repeat, repeat_length by exact Hb.
  destruct (Z.of_nat b / 2 =? Z.of_nat j).
  - field. apply (length_nonzero (repeat x (S n))) in Hne.
    now rewrite repeat_length in Hne.
  - unfold Qdiv. apply Qmult_0_l.
Qed.

(** ** Hexadecimal colour codes *)



Lemma byte_check_all : forallb byte_check (map Z.of_nat (seq 0 256)) = true.
Proof. vm_compute. reflexivity. Qed.

Lemma fmt_02x_byte (x : Z) :
  0 <= x <= 255 ->
  exists c1 c2,
    fmt_02x x = String c1 (String c2 EmptyString) /\
    Ascii.eqb c1 "#" = false /\
    int16 (String c1 (String c2 EmptyString)) = Ok x.
Proof.
  intros Hx.
  assert (Hin : In x (map Z.of_nat (seq 0 256))).
  { apply in_map_iff. exists (Z.to_nat x). split; [lia|].
    apply in_seq. lia. }
  pose proof (proj1 (forallb_forall _ _) byte_check_all x Hin) as Hc.
  unfold byte_check in Hc.
  destruct (fmt_02x x) as [|c1 [|c2 [|? ?]]]; try discriminate.
  exists c1, c2. apply andb_prop in Hc. destruct Hc as [Hh Hi].
  split; [reflexivity|]. split.
  - now apply negb_true_iff.
  - destruct (int16 (String c1 (String c2 ""))) as [y|]; [|discriminate].
    apply Z.eqb_eq in Hi. now subst.
Qed.

(** C8.  For every colour whose three channels lie in 0..255, decoding the
    hexadecimal code that [rgb2hex] prints gives back the three channels:
    [hex2rgb(rgb2hex((r, g, b))) == [r, g, b]]. *)
Theorem hex2rgb_rgb2hex (r g b : Z) :
  0 <= r <= 255 -> 0 <= g <= 255 -> 0 <= b <= 255 ->
  hex2rgb (rgb2hex (r, g, b)) = Ok [r; g; b].
Proof.
  intros Hr Hg Hb.
  destruct (fmt_02x_byte r Hr) as (r1 & r2 & Er & Nr & Ir).
  destruct (fmt_02x_byte g Hg) as (g1 & g2 & Eg & _ & Ig).
  destruct (fmt_02x_byte b Hb) as (b1 & b2 & Eb & _ & Ib).
  unfold rgb2hex. rewrite Er, Eg, Eb.
  set (value := String r1 (String r2 (String g1 (String g2 (String b1 (String b2 "")))))).
  assert (Hv : (let s := "#" ++ value in
                if startswith s "#" then lstrip "#" s else s) = value).
  { subst value. cbn. rewrite Nr. reflexivity. }
  unfold hex2rgb. cbn zeta in Hv.
  change ("#" ++ String r1 (String r2 "") ++ String g1 (String g2 "")
              ++ String b1 (String b2 "")) with ("#" ++ value).
  rewrite Hv. subst value. cbn -[int16].
  rewrite Ir, Ig, Ib. reflexivity.
Qed.

Lemma hex2rgb_rgb2hex_witness : hex2rgb (rgb2hex (18, 171, 255)) = Ok [18; 171; 255].
Proof. apply hex2rgb_rgb2hex; lia. Defined.

(** ** The complementary colour *)

Lemma rmap_int16_raise (f : Z -> string) (l : list string) (e : exn) :
  rmap (fun a => n <- int16 a ;;; Ok (f n)) l = Raise e -> e = ValueError.
Proof.
  induction l as [|a l IH]; cbn; [discriminate|].
  unfold int16 at 1.
  destruct (match rstrip_space (lstrip_space a) with
            | String "-" rest => option_map Z.opp (unsigned16 rest)
            | String "+" rest => unsigned16 rest
            | _ => unsigned16 (rstrip_space (lstrip_space a))
            end) as [n|]; cbn.
  - destruct (rmap _ l) as [ys|e'] eqn:El; cbn; [discriminate|].
    intros [= <-]. now apply IH.
  - now intros [= <-].
Qed.

(** C10.  [complementary_color] never returns: on every input string it
    raises, either [ValueError] from reading a channel or, when the three
    channels were read, [AttributeError] from [comp.join]. *)
Theorem complementary_color_raises (incolor : string) :
  (complementary_color incolor = Raise ValueError \/
   complementary_color incolor = Raise AttributeError) /\
  forall v, complementary_color incolor <> Ok v.
Proof.
  assert (H : complementary_color incolor = Raise ValueError \/
              complementary_color incolor = Raise AttributeError).
  { unfold complementary_color.
    match goal with |- context [rmap ?f ?l] => destruct (rmap f l) as [comp|e] eqn:Er end.
    - right. reflexivity.
    - left. cbn. f_equal. eapply rmap_int16_raise. exact Er. }
  split; [exact H|].
  intros v Hv. destruct H as [H|H]; rewrite H in Hv; discriminate.
Qed.

Example complementary_color_ex1 : complementary_color "#ff8000" = Raise AttributeError.
Proof. reflexivity. Qed.

Example complementary_color_ex2 : complementary_color "#ff" = Raise ValueError.
Proof. reflexivity. Qed.

(** ** Method dispatch *)



(** C9.  When the method is none of the four names, [get_palette] returns
    [None]: no exception, no fallback strategy, and the world is untouched.
    This holds for both versions of the function. *)
Theorem get_palette_unknown_method (E : Externals) (fname : string) (k : Z)
        (method color_format : string) (w : world E) :
  ~ known_method method ->
  Paletti.get_palette E fname k method color_format w = (Ok None, w) /\
  Package.get_palette E fname k method w = (Ok None, w).
Proof.
  intros Hm. unfold Paletti.get_palette, Package.get_palette.
  destruct (String.eqb_spec method "k-means").
  { exfalso. apply Hm. unfold known_method. tauto. }
  destruct (String.eqb_spec method "colorific").
  { exfalso. apply Hm. unfold known_method. tauto. }
  destruct (String.eqb_spec method "pil").
  { exfalso. apply Hm. unfold known_method. tauto. }
  destruct (String.eqb_spec method "pictaculous").
  { exfalso. apply Hm. unfold known_method. tauto. }
  split; reflexivity.
Qed.

Lemma get_palette_unknown_method_witness :
  Paletti.get_palette Sample.externals "a.png" 5 "median-cut" "rgb" (Sample.start 0)
    = (Ok None, Sample.start 0) /\
  Package.get_palette Sample.externals "a.png" 5 "median-cut" (Sample.start 0)
    = (Ok None, Sample.start 0).
Proof.
  apply get_palette_unknown_method.
  unfold known_method. intros [H|[H|[H|H]]]; discriminate H.
Defined.

(** ** The pipelines, step by step *)

Section Monad.
Context {E : Externals}.

Lemma bind_Ok {A B} (c : M E A) (f : A -> M E B) (w w' : world E) (a : A) :
  c w = (Ok a, w') -> bind c f w = f a w'.
Proof. unfold bind. now intros ->. Qed.

Lemma bind_Raise {A B} (c : M E A) (f : A -> M E B) (w w' : world E) (e : exn) :
  c w = (Raise e, w') -> bind c f w = (Raise e, w').
Proof. unfold bind. now intros ->. Qed.

Lemma bind_lift {A B} (r : result A) (f : A -> M E B) (w : world E) :
  bind (lift r) f w = match r with Ok a => f a w | Raise e => (Raise e, w) end.
Proof. unfold bind, lift. now destruct r. Qed.

End Monad.

Lemma prod_flatten (h w d : nat) :
  Nat.eqb (prod_shape [(h * w)%nat; d]) (prod_shape [h; w; d]) = true.
Proof. apply Nat.eqb_eq. cbn. lia. Qed.

Lemma Paletti_prepare_image (E : Externals) (imfile : string) (w : world E) (p : picture) :
  lookup imfile (fs w) = Some (ImageFile p) ->
  Paletti.prepare E imfile w =
    (Ok (mk_array [(pic_height p * pic_width p)%nat; 3%nat]
           (map over255 (map3 (COLOR_BGR2LAB E)
              (map inject_Z (to_bgr (pic_mode p) (pic_data p)))))), w).
Proof.
  intros Hl. unfold Paletti.prepare.
  erewrite bind_Ok by (unfold cv2_imread; rewrite Hl; reflexivity).
  rewrite bind_lift. cbn [cv2_cvtColor imread_array last_axis shape last Nat.eqb].
  rewrite bind_lift. cbn [amap shape unpack3 data].
  rewrite bind_lift. cbn [assert Nat.eqb].
  unfold lift, reshape, size. cbn [shape]. rewrite prod_flatten. reflexivity.
Qed.

Lemma Paletti_prepare_unreadable (E : Externals) (imfile : string) (w : world E) :
  (forall p, lookup imfile (fs w) <> Some (ImageFile p)) ->
  Paletti.prepare E imfile w = (Raise cv2_error, w).
Proof.
  intros Hl. unfold Paletti.prepare.
  erewrite bind_Ok with (a := None).
  - rewrite bind_lift. reflexivity.
  - unfold cv2_imread. destruct (lookup imfile (fs w)) as [[p|]|]; try reflexivity.
    now destruct (Hl p).
Qed.

Lemma thumbnail_mode (E : Externals) (p : picture) (sx sy : nat) (f : resample_filter) :
  pic_mode (Image_thumbnail E p sx sy f) = pic_mode p.
Proof.
  unfold Image_thumbnail. destruct (thumbnail_size _ _ _ _) as [x y].
  destruct (_ && _); reflexivity.
Qed.

Lemma Package_prepare_rgb (E : Externals) (fname : string) (w : world E) (p : picture) :
  lookup fname (fs w) = Some (ImageFile p) ->
  pic_mode p = RGB ->
  let t := Image_thumbnail E p Package.RSIZE Package.RSIZE ANTIALIAS in
  forallb in_display_range (map inject_Z (pic_data t)) = true ->
  Package.prepare E fname w =
    (Ok (pic_height t, pic_width t,
         mk_array [(pic_height t * pic_width t)%nat; 3%nat]
           (map3 (rgb2lab_pixel E) (map inject_Z (pic_data t)))), w).
Proof.
  intros Hl Hm t Hr. unfold Package.prepare.
  erewrite bind_Ok by (unfold Image_open; rewrite Hl; reflexivity).
  fold t. rewrite bind_lift.
  assert (Hmt : pic_mode t = RGB) by (subst t; now rewrite thumbnail_mode).
  unfold rgb2lab, np_asarray. rewrite Hmt.
  cbn [last_axis shape last bands Nat.eqb negb data]. rewrite Hr. cbn [negb].
  rewrite bind_lift. cbn [unpack3 shape]. rewrite bind_lift. cbn [assert Nat.eqb].
  rewrite bind_lift. unfold reshape, size. cbn [shape]. rewrite prod_flatten.
  reflexivity.
Qed.

Lemma Package_prepare_rgba (E : Externals) (fname : string) (w : world E) (p : picture) :
  lookup fname (fs w) = Some (ImageFile p) ->
  pic_mode p = RGBA ->
  Package.prepare E fname w = (Raise ShapeMismatch, w).
Proof.
  intros Hl Hm. unfold Package.prepare.
  erewrite bind_Ok by (unfold Image_open; rewrite Hl; reflexivity).
  rewrite bind_lift. unfold rgb2lab, np_asarray. rewrite thumbnail_mode, Hm.
  reflexivity.
Qed.

Lemma fill_clusters_ok (maincolors : ndarray) (labels : list Z) (n : nat) :
  Forall (fun l => exists v row, getitem maincolors l = Ok v /\
                                 broadcast_to v [3%nat] = Ok row) labels ->
  forall (i : nat) (c : ndarray),
    shape c = [n; 3%nat] -> (i + List.length labels <= n)%nat ->
    exists c', Package.fill_clusters maincolors labels i c = Ok c' /\
               shape c' = [n; 3%nat].
Proof.
  induction 1 as [|l labels (v & row & Hg & Hb) _ IH]; intros i c Hc Hi.
  - exists c. split; [reflexivity|exact Hc].
  - cbn [Package.fill_clusters List.length] in *. rewrite Hg. cbn [rbind].
    unfold setitem. rewrite Hc.
    destruct (Nat.ltb_spec i n) as [_|]; [|lia].
    rewrite Hb. cbn [rbind].
    apply IH; [reflexivity|lia].
Qed.

Lemma row_ok_matrix (a : ndarray) (m : nat) (l : Z) :
  shape a = [m; 3%nat] -> 0 <= l < Z.of_nat m ->
  exists v row, getitem a l = Ok v /\ broadcast_to v [3%nat] = Ok row.
Proof.
  intros Hs Hl. unfold getitem. rewrite Hs.
  destruct (Z.ltb_spec l 0); [lia|].
  destruct (Z.leb_spec 0 l); [|lia]. destruct (Z.ltb_spec l (Z.of_nat m)); [|lia].
  cbn [andb]. eexists _, _. split; [reflexivity|].
  unfold broadcast_to. cbn [shape].
  destruct (list_eq_dec Nat.eq_dec [3%nat] [3%nat]); [reflexivity|congruence].
Qed.

Lemma row_ok_vector (a : ndarray) (x y z : Q) :
  shape a = [3%nat] -> data a = [x; y; z] ->
  exists v row, getitem a 0 = Ok v /\ broadcast_to v [3%nat] = Ok row.
Proof.
  intros Hs Hd. unfold getitem. rewrite Hs, Hd. cbn.
  eexists _, _. split; reflexivity.
Qed.

Lemma squeeze_centers (kk : nat) :
  filter (fun n => negb (Nat.eqb n 1)) [1%nat; kk; 3%nat] =
  if Nat.eqb kk 1 then [3%nat] else [kk; 3%nat].
Proof. cbn. destruct (Nat.eqb kk 1); reflexivity. Qed.

Lemma Package_kmeans_palette_one (E : Externals) (fname : string) (w : world E)
      (h0 w0 : nat) (imarr centers : ndarray) (rs : RandomState E) :
  Package.prepare E fname w = (Ok (h0, w0, imarr), w) ->
  shape imarr = [(h0 * w0)%nat; 3%nat] ->
  (0 < h0 * w0)%nat ->
  KMeans_fit E (np_random w) imarr 1 = (Ok centers, rs) ->
  shape centers = [1%nat; 3%nat] ->
  List.length (data centers) = 3%nat ->
  List.length (KMeans_predict E centers imarr) = (h0 * w0)%nat ->
  Forall (fun l => 0 <= l < 1) (KMeans_predict E centers imarr) ->
  exists pal pic,
    Package.kmeans_palette E fname 1 w =
      (Ok pal, mk_world rs ((Package.clustered_name fname, ImageFile pic) :: fs w)) /\
    shape (colors pal) = [3%nat] /\
    Forall2 Qeq (percent pal) [0; 1; 0]%Q.
Proof.
  intros Hprep Himarr Hpos Hfit Hsc Hdc Hlen Hlab.
  unfold Package.kmeans_palette.
  erewrite bind_Ok by exact Hprep. cbn beta iota.
  unfold Package.cluster_and_assemble.
  erewrite bind_Ok by (unfold KMeans_fit_global; rewrite Hfit; reflexivity).
  set (labels := KMeans_predict E centers imarr) in *.
  rewrite bind_lift.
  unfold lab2rgb, expand_dims0, last_axis. cbn [shape]. rewrite Hsc.
  cbn [last Nat.eqb negb data].
  destruct (data centers) as [|x [|y [|z [|? ?]]]] eqn:Hd; try discriminate Hdc.
  cbn [map3]. destruct (lab2rgb_pixel E (x, y, z)) as [[r g] b] eqn:Hpx.
  cbn [map].
  set (maincolors := amap over255 (squeeze (mk_array [1%nat; 1%nat; 3%nat]
                       [clamp_display r; clamp_display g; clamp_display b]))).
  assert (Hconst : labels = repeat 0 (List.length labels)).
  { apply Forall_constant_repeat. eapply Forall_impl; [|exact Hlab]. cbn. intros; lia. }
  assert (Hrows : Forall (fun l => exists v row, getitem maincolors l = Ok v /\
                                   broadcast_to v [3%nat] = Ok row) labels).
  { eapply Forall_impl; [|exact Hlab]. intros l Hl. cbv beta in Hl.
    assert (l = 0) as -> by lia. eapply row_ok_vector; reflexivity. }
  destruct (fill_clusters_ok maincolors labels (h0 * w0) Hrows 0 (zeros (shape imarr)))
    as (c' & Hfill & Hc'); [rewrite Himarr; reflexivity|lia|].
  rewrite bind_lift, Hfill.
  rewrite bind_lift. unfold reshape at 1. unfold size. rewrite Hc'.
  rewrite Nat.eqb_sym, prod_flatten.
  rewrite bind_lift. cbn [Image_fromarray astype_uint8 amap shape data].
  erewrite bind_Ok by reflexivity.
  destruct (compute_percent_constant 0 (Nat.pred (List.length labels)) 3 maincolors)
    as (percent & Hcp & Hp); [reflexivity|lia|].
  replace (S (Nat.pred (List.length labels))) with (List.length labels) in Hcp by lia.
  rewrite <- Hconst in Hcp.
  rewrite bind_lift, Hcp.
  eexists _, _. split; [reflexivity|]. split; [reflexivity|].
  exact Hp.
Qed.

(** ** Palettes of one colour *)

(** C3.  With [k = 1] the packaged [kmeans_palette] does not return one
    colour with one proportion: [squeeze] removes the cluster axis together
    with the leading axis, so [colors] is a flat array of three numbers and
    [percent], whose length is [len(maincolors)], has three entries. *)
Theorem kmeans_palette_one_cluster_shape (E : Externals) (fname : string) (w : world E)
      (h0 w0 : nat) (imarr centers : ndarray) (rs : RandomState E) :
  Package.prepare E fname w = (Ok (h0, w0, imarr), w) ->
  shape imarr = [(h0 * w0)%nat; 3%nat] ->
  (0 < h0 * w0)%nat ->
  KMeans_fit E (np_random w) imarr 1 = (Ok centers, rs) ->
  shape centers = [1%nat; 3%nat] ->
  List.length (data centers) = 3%nat ->
  List.length (KMeans_predict E centers imarr) = (h0 * w0)%nat ->
  Forall (fun l => 0 <= l < 1) (KMeans_predict E centers imarr) ->
  exists pal w',
    Package.kmeans_palette E fname 1 w = (Ok pal, w') /\
    shape (colors pal) = [3%nat] /\
    List.length (percent pal) = 3%nat.
Proof.
  intros Hprep Himarr Hpos Hfit Hsc Hdc Hlen Hlab.
  destruct (Package_kmeans_palette_one E fname w h0 w0 imarr centers rs
              Hprep Himarr Hpos Hfit Hsc Hdc Hlen Hlab) as (pal & pic & Hrun & Hs & Hp).
  exists pal. eexists. split; [exact Hrun|]. split; [exact Hs|].
  apply Forall2_length in Hp. exact Hp.
Qed.

Lemma kmeans_palette_one_cluster_shape_witness :
  exists pal w',
    Package.kmeans_palette Sample.externals "a.png" 1 (Sample.start 0) = (Ok pal, w') /\
    shape (colors pal) = [3%nat] /\
    List.length (percent pal) = 3%nat.
Proof.
  eapply (kmeans_palette_one_cluster_shape Sample.externals "a.png" (Sample.start 0) 2 2).
  - vm_compute. reflexivity.
  - reflexivity.
  - vm_compute. lia.
  - vm_compute. reflexivity.
  - reflexivity.
  - reflexivity.
  - vm_compute. reflexivity.
  - vm_compute. repeat constructor; discriminate.
Defined.

(** C1.  With [k = 1] every label is 0, yet the packaged [kmeans_palette]
    returns the proportions 0, 1, 0: the histogram is taken over
    [len(maincolors) = 3] bins between the least and the greatest label, so
    the proportion at index 0 is not the frequency of label 0. *)
Theorem kmeans_palette_one_cluster_percent (E : Externals) (fname : string) (w : world E)
      (h0 w0 : nat) (imarr centers : ndarray) (rs : RandomState E) :
  Package.prepare E fname w = (Ok (h0, w0, imarr), w) ->
  shape imarr = [(h0 * w0)%nat; 3%nat] ->
  (0 < h0 * w0)%nat ->
  KMeans_fit E (np_random w) imarr 1 = (Ok centers, rs) ->
  shape centers = [1%nat; 3%nat] ->
  List.length (data centers) = 3%nat ->
  List.length (KMeans_predict E centers imarr) = (h0 * w0)%nat ->
  Forall (fun l => 0 <= l < 1) (KMeans_predict E centers imarr) ->
  exists pal w',
    Package.kmeans_palette E fname 1 w = (Ok pal, w') /\
    Forall2 Qeq (percent pal) [0; 1; 0]%Q.
Proof.
  intros Hprep Himarr Hpos Hfit Hsc Hdc Hlen Hlab.
  destruct (Package_kmeans_palette_one E fname w h0 w0 imarr centers rs
              Hprep Himarr Hpos Hfit Hsc Hdc Hlen Hlab) as (pal & pic & Hrun & Hs & Hp).
  exists pal. eexists. split; [exact Hrun|exact Hp].
Qed.

Lemma kmeans_palette_one_cluster_percent_witness :
  exists pal w',
    Package.kmeans_palette Sample.externals "a.png" 1 (Sample.start 0) = (Ok pal, w') /\
    Forall2 Qeq (percent pal) [0; 1; 0]%Q.
Proof.
  eapply (kmeans_palette_one_cluster_percent Sample.externals "a.png" (Sample.start 0) 2 2).
  - vm_compute. reflexivity.
  - reflexivity.
  - vm_compute. lia.
  - vm_compute. reflexivity.
  - reflexivity.
  - reflexivity.
  - vm_compute. reflexivity.
  - vm_compute. repeat constructor; discriminate.
Defined.

(** ** The size of the thumbnail *)

Section Thumbnail.
Local Open Scope nat_scope.



(** A size that fits is left alone. *)
Lemma thumbnail_size_small (x y s : nat) :
  x <= s -> y <= s -> thumbnail_size x y s s = (x, y).
Proof.
  intros Hx Hy. unfold thumbnail_size.
  destruct (Nat.ltb_spec s x); [lia|]. destruct (Nat.ltb_spec s y); [lia|]. reflexivity.
Qed.



End Thumbnail.

(** ** A palette size the clusterer rejects *)






(** ** The number of samples *)


Section Bound.
Local Open Scope nat_scope.


End Bound.



(** ** The flattened image *)

Lemma list_length_ind {A} (P : list A -> Prop) :
  (forall l, (forall l', (List.length l' < List.length l)%nat -> P l') -> P l) ->
  forall l, P l.
Proof.
  intros H l. remember (List.length l) as n eqn:Hn. revert l Hn.
  induction n as [n IH] using lt_wf_ind. intros l ->.
  apply H. intros l' Hl'. now apply (IH (List.length l')).
Qed.

Lemma bgr_samples (E : Externals) (m : mode) (l : list Z) :
  map over255 (map3 (COLOR_BGR2LAB E) (map inject_Z (to_bgr m l)))
  = flat_map (bgr_sample E) (rgb_pixels m l).
Proof.
  induction l as [l IH] using list_length_ind.
  destruct m.
  - destruct l as [|v rest]; [reflexivity|].
    cbn [to_bgr rgb_pixels map map3 flat_map bgr_sample].
    destruct (COLOR_BGR2LAB E _) as [[x y] z]. cbn [map app].
    rewrite IH by (cbn; lia). reflexivity.
  - destruct l as [|r [|g [|b rest]]]; try reflexivity.
    cbn [to_bgr rgb_pixels map map3 flat_map bgr_sample].
    destruct (COLOR_BGR2LAB E _) as [[x y] z]. cbn [map app].
    rewrite IH by (cbn; lia). reflexivity.
  - destruct l as [|r [|g [|b [|a rest]]]]; try reflexivity.
    cbn [to_bgr rgb_pixels map map3 flat_map bgr_sample].
    destruct (COLOR_BGR2LAB E _) as [[x y] z]. cbn [map app].
    rewrite IH by (cbn; lia). reflexivity.
Qed.

Lemma rgb_samples (E : Externals) (l : list Z) :
  map3 (rgb2lab_pixel E) (map inject_Z l) = flat_map (rgb_sample E) (rgb_pixels RGB l).
Proof.
  induction l as [l IH] using list_length_ind.
  destruct l as [|r [|g [|b rest]]]; try reflexivity.
  cbn [rgb_pixels map map3 flat_map rgb_sample].
  destruct (rgb2lab_pixel E _) as [[x y] z]. cbn [app].
  rewrite IH by (cbn; lia). reflexivity.
Qed.

Lemma length_rgb_pixels (m : mode) (n : nat) (l : list Z) :
  List.length l = (n * bands m)%nat -> List.length (rgb_pixels m l) = n.
Proof.
  revert l. induction n as [|n IH]; intros l Hl.
  - destruct l; [|discriminate Hl]. now destruct m.
  - destruct m; cbn [bands] in *.
    + destruct l as [|v rest]; [discriminate Hl|].
      cbn [rgb_pixels List.length]. f_equal. apply IH. cbn in *; lia.
    + destruct l as [|r [|g [|b rest]]]; try (cbn in Hl; lia).
      cbn [rgb_pixels List.length]. f_equal. apply IH. cbn in *; lia.
    + destruct l as [|r [|g [|b [|a rest]]]]; try (cbn in Hl; lia).
      cbn [rgb_pixels List.length]. f_equal. apply IH. cbn in *; lia.
Qed.

(** Row [k] of an array of shape (n, 3) that was built pixel by pixel. *)
Lemma getitem_flat_map {A} (g : A -> list Q) (l : list A) (n k : nat) (d : A) :
  (forall a, List.length (g a) = 3%nat) ->
  (k < List.length l)%nat -> (k < n)%nat ->
  getitem (mk_array [n; 3%nat] (flat_map g l)) (Z.of_nat k)
  = Ok (mk_array [3%nat] (g (nth k l d))).
Proof.
  intros Hg Hk Hn. unfold getitem. cbn [shape data prod_shape fold_right].
  destruct (Z.ltb_spec (Z.of_nat k) 0); [lia|].
  destruct (Z.leb_spec 0 (Z.of_nat k)); [|lia].
  destruct (Z.ltb_spec (Z.of_nat k) (Z.of_nat n)); [|lia].
  cbn [andb]. rewrite Nat2Z.id. do 2 f_equal.
  clear - Hg Hk. revert k Hk. induction l as [|a l IH]; intros k Hk; [cbn in Hk; lia|].
  cbn [flat_map]. pose proof (Hg a) as Ha.
  destruct k as [|k].
  - cbn [nth Nat.mul skipn]. rewrite firstn_app, Ha.
    change (3 * 1 - 3)%nat with 0%nat. cbn [firstn]. rewrite app_nil_r.
    apply firstn_all2. cbn. lia.
  - cbn [nth]. replace (S k * (3 * 1))%nat with (List.length (g a) + k * (3 * 1))%nat by lia.
    rewrite skipn_app, skipn_all2 by lia.
    replace (List.length (g a) + k * (3 * 1) - List.length (g a))%nat with (k * (3 * 1))%nat
      by lia.
    cbn [app]. apply IH. cbn in Hk. lia.
Qed.

Lemma bgr_sample_length (E : Externals) (c : Z * Z * Z) :
  List.length (bgr_sample E c) = 3%nat.
Proof.
  destruct c as [[r g] b]. unfold bgr_sample. now destruct (COLOR_BGR2LAB E _) as [[x y] z].
Qed.

Lemma rgb_sample_length (E : Externals) (c : Z * Z * Z) :
  List.length (rgb_sample E c) = 3%nat.
Proof.
  destruct c as [[r g] b]. unfold rgb_sample. now destruct (rgb2lab_pixel E _) as [[x y] z].
Qed.

Section Flatten.
Local Open Scope nat_scope.

(** C7 (as amended).  The preparation step hands over an array of shape
    (height * width, 3) whose row [i * width + j] is the sample of the pixel
    in row [i] and column [j]: a flat sequence in row-major order, without an
    alpha value.  In [paletti.py] this holds for every decoded image,
    [cv2.imread] having left out the alpha channel.  In the packaged version
    it holds for a colour image (after the thumbnail step); an image with an
    alpha channel is not stripped there, and preparation fails. *)
Theorem prepare_flattens_row_major (E : Externals) (fname : string) (w : world E)
        (p : picture) :
  lookup fname (fs w) = Some (ImageFile p) ->
  pic_wf p ->
  let t := Image_thumbnail E p Package.RSIZE Package.RSIZE ANTIALIAS in
  pic_wf t ->
  forallb in_display_range (map inject_Z (pic_data t)) = true ->
  (exists imarr,
     Paletti.prepare E fname w = (Ok imarr, w) /\
     shape imarr = [pic_height p * pic_width p; 3] /\
     List.length (rgb_pixels (pic_mode p) (pic_data p)) = pic_height p * pic_width p /\
     forall i j, i < pic_height p -> j < pic_width p ->
       getitem imarr (Z.of_nat (i * pic_width p + j))
       = Ok (mk_array [3]
               (bgr_sample E (nth (i * pic_width p + j)
                                  (rgb_pixels (pic_mode p) (pic_data p)) (0, 0, 0)%Z)))) /\
  (pic_mode p = RGB ->
   exists imarr,
     Package.prepare E fname w = (Ok (pic_height t, pic_width t, imarr), w) /\
     shape imarr = [pic_height t * pic_width t; 3] /\
     List.length (rgb_pixels RGB (pic_data t)) = pic_height t * pic_width t /\
     forall i j, i < pic_height t -> j < pic_width t ->
       getitem imarr (Z.of_nat (i * pic_width t + j))
       = Ok (mk_array [3]
               (rgb_sample E (nth (i * pic_width t + j)
                                  (rgb_pixels RGB (pic_data t)) (0, 0, 0)%Z)))) /\
  (pic_mode p = RGBA -> Package.prepare E fname w = (Raise ShapeMismatch, w)).
Proof.
  intros Hl Hwf t Hwft Hr. split; [|split].
  - eexists. split; [apply (Paletti_prepare_image E fname w p Hl)|].
    split; [reflexivity|].
    assert (Hlen : List.length (rgb_pixels (pic_mode p) (pic_data p))
                   = pic_height p * pic_width p).
    { apply length_rgb_pixels. exact Hwf. }
    split; [exact Hlen|]. intros i j Hi Hj.
    rewrite bgr_samples.
    apply getitem_flat_map; [apply bgr_sample_length| |]; try rewrite Hlen; nia.
  - intros Hm. eexists. split; [apply (Package_prepare_rgb E fname w p Hl Hm Hr)|].
    fold t. split; [reflexivity|].
    assert (Hmt : pic_mode t = RGB) by (subst t; now rewrite thumbnail_mode).
    assert (Hlen : List.length (rgb_pixels RGB (pic_data t)) = pic_height t * pic_width t).
    { apply length_rgb_pixels. unfold pic_wf in Hwft. now rewrite Hmt in Hwft. }
    split; [exact Hlen|]. intros i j Hi Hj.
    rewrite rgb_samples.
    apply getitem_flat_map; [apply rgb_sample_length| |]; try rewrite Hlen; nia.
  - intros Hm. now apply Package_prepare_rgba with (p := p).
Qed.

End Flatten.

Lemma prepare_flattens_row_major_witness :
  (exists imarr,
     Paletti.prepare Sample.externals "b.png" (Sample.start 0) = (Ok imarr, Sample.start 0) /\
     shape imarr = [4%nat; 3%nat] /\
     getitem imarr 3
     = Ok (mk_array [3%nat] (bgr_sample Sample.externals (0, 0, 255)))) /\
  Package.prepare Sample.externals "b.png" (Sample.start 0)
    = (Raise ShapeMismatch, Sample.start 0).
Proof.
  destruct (prepare_flattens_row_major Sample.externals "b.png" (Sample.start 0)
              Sample.rgba_2x2) as [(imarr & H1 & H2 & H3 & H4) [_ H5]].
  - reflexivity.
  - reflexivity.
  - reflexivity.
  - vm_compute. reflexivity.
  - split.
    + exists imarr. split; [exact H1|]. split; [exact H2|].
      apply (H4 1%nat 1%nat); cbn; lia.
    + apply H5. reflexivity.
Defined.

(** The packaged [kmeans_palette] on an image with an alpha channel: the
    call does not succeed. *)
Lemma Package_kmeans_palette_rgba_fails :
  pic_mode Sample.rgba_2x2 = RGBA /\
  lookup "b.png" (fs (Sample.start 0)) = Some (ImageFile Sample.rgba_2x2) /\
  ~ exists pal,
      fst (Package.kmeans_palette Sample.externals "b.png" 3 (Sample.start 0)) = Ok pal.
Proof.
  split; [reflexivity|]. split; [reflexivity|].
  intros [pal H]. vm_compute in H. discriminate H.
Qed.

(** ** Proportions as label frequencies *)

(** When there are at least two clusters and the labels 0 and [k - 1] both
    occur, bin [j] of the histogram holds exactly the samples labelled [j]:
    the proportions are the label frequencies. *)
Lemma compute_percent_frequency (labels : list Z) (maincolors : ndarray) (k : nat) :
  (2 <= k)%nat -> spans labels k -> len maincolors = Ok k ->
  exists percent,
    compute_percent labels maincolors = Ok percent /\
    Forall2 Qeq percent
      (map (fun j => inject_Z (count_bin labels j)
                     / inject_Z (Z.of_nat (List.length labels)))%Q (seq 0 k)) /\
    Forall (fun p => 0 <= p)%Q percent /\
    Qsum percent == 1.
Proof.
  intros Hk Hs Hlen.
  assert (Hne : labels <> []).
  { destruct Hs as (_ & H0 & _). intros ->. destruct H0. }
  destruct (compute_percent_spec labels maincolors k Hne Hlen) as (percent & Hc & _ & Hp & Hpos & Hsum);
    [lia|].
  exists percent. rewrite (bin_indices_spans labels k Hk Hs) in Hp. tauto.
Qed.

(** [paletti.py] with [k = 1] on the sample image: one proportion, but
    [colors] is a flat array of three numbers. *)
Example Paletti_kmeans_palette_one_cluster :
  match fst (Paletti.kmeans_palette Sample.externals "a.png" 1 (Sample.start 0)) with
  | Ok pal => shape (colors pal) = [3%nat] /\ List.length (percent pal) = 1%nat
  | Raise _ => False
  end.
Proof. vm_compute. split; reflexivity. Qed.

(** * Further properties of the sources *)

(** ** [kmeans_palette] when the clusterer succeeds *)

Lemma prod_cluster_axis (k : nat) :
  Nat.eqb (prod_shape [k; 1%nat; 3%nat]) (prod_shape [k; 3%nat]) = true.
Proof. apply Nat.eqb_eq. cbn. lia. Qed.

Lemma squeeze_cluster_axis (k : nat) :
  filter (fun n => negb (Nat.eqb n 1)) [k; 1%nat; 3%nat] =
  if Nat.eqb k 1 then [3%nat] else [k; 3%nat].
Proof. cbn. destruct (Nat.eqb k 1); reflexivity. Qed.

(** [paletti.py], lines 27-47, when the clusterer succeeds. *)
Lemma Paletti_kmeans_palette_ok (E : Externals) (fname : string) (w : world E)
      (imarr centers : ndarray) (rs : RandomState E) (k : nat) :
  Paletti.prepare E fname w = (Ok imarr, w) ->
  (1 <= k)%nat ->
  KMeans_fit E (np_random w) imarr (Z.of_nat k) = (Ok centers, rs) ->
  shape centers = [k; 3%nat] ->
  KMeans_predict E centers imarr <> [] ->
  exists pal,
    Paletti.kmeans_palette E fname (Z.of_nat k) w = (Ok pal, mk_world rs (fs w)) /\
    shape (colors pal) = (if Nat.eqb k 1 then [3%nat] else [k; 3%nat]) /\
    List.length (percent pal) = k /\
    Forall2 Qeq (percent pal)
      (map (fun j => inject_Z (count_bin (bin_indices (KMeans_predict E centers imarr) k) j)
                     / inject_Z (Z.of_nat (List.length (KMeans_predict E centers imarr))))%Q
           (seq 0 k)) /\
    Forall (fun p => 0 <= p)%Q (percent pal) /\
    Qsum (percent pal) == 1.
Proof.
  intros Hprep Hk Hfit Hsc Hne.
  unfold Paletti.kmeans_palette.
  erewrite bind_Ok by exact Hprep.
  unfold Paletti.cluster_and_assemble.
  erewrite bind_Ok by (unfold KMeans_fit_global; rewrite Hfit; reflexivity).
  set (labels := KMeans_predict E centers imarr) in *.
  rewrite bind_lift. destruct (Z.ltb_spec (Z.of_nat k) 0) as [|_]; [lia|].
  rewrite bind_lift. unfold reshape, size. rewrite Hsc, Nat2Z.id, prod_cluster_axis.
  rewrite bind_lift. unfold cv2_cvtColor, last_axis.
  cbn [astype_uint8 amap shape last Nat.eqb data].
  set (maincolors := amap over255 _).
  assert (Hlen : len maincolors = Ok k) by reflexivity.
  destruct (compute_percent_spec labels maincolors k Hne Hlen)
    as (pct & Hc & Hl & Hp & Hpos & Hsum); [lia|].
  rewrite bind_lift, Hc.
  eexists. split; [reflexivity|].
  cbn [colors percent]. split.
  { subst maincolors. unfold squeeze. cbn [amap shape]. apply squeeze_cluster_axis. }
  repeat split; assumption.
Qed.

(** [paletti/paletti.py], lines 29-45, with at least two clusters, when the
    clusterer succeeds. *)
Lemma Package_kmeans_palette_ok (E : Externals) (fname : string) (w : world E)
      (h0 w0 : nat) (imarr centers : ndarray) (rs : RandomState E) (k : nat) :
  Package.prepare E fname w = (Ok (h0, w0, imarr), w) ->
  shape imarr = [(h0 * w0)%nat; 3%nat] ->
  (0 < h0 * w0)%nat ->
  (2 <= k)%nat ->
  KMeans_fit E (np_random w) imarr (Z.of_nat k) = (Ok centers, rs) ->
  shape centers = [k; 3%nat] ->
  List.length (KMeans_predict E centers imarr) = (h0 * w0)%nat ->
  Forall (fun l => 0 <= l < Z.of_nat k) (KMeans_predict E centers imarr) ->
  exists pal pic,
    Package.kmeans_palette E fname (Z.of_nat k) w =
      (Ok pal, mk_world rs ((Package.clustered_name fname, ImageFile pic) :: fs w)) /\
    pic_mode pic = RGB /\ pic_height pic = h0 /\ pic_width pic = w0 /\
    shape (colors pal) = [k; 3%nat] /\
    List.length (percent pal) = k /\
    Forall2 Qeq (percent pal)
      (map (fun j => inject_Z (count_bin (bin_indices (KMeans_predict E centers imarr) k) j)
                     / inject_Z (Z.of_nat (List.length (KMeans_predict E centers imarr))))%Q
           (seq 0 k)) /\
    Forall (fun p => 0 <= p)%Q (percent pal) /\
    Qsum (percent pal) == 1.
Proof.
  intros Hprep Himarr Hpos Hk Hfit Hsc Hlen Hlab.
  unfold Package.kmeans_palette.
  erewrite bind_Ok by exact Hprep. cbn beta iota.
  unfold Package.cluster_and_assemble.
  erewrite bind_Ok by (unfold KMeans_fit_global; rewrite Hfit; reflexivity).
  set (labels := KMeans_predict E centers imarr) in *.
  rewrite bind_lift.
  unfold lab2rgb, expand_dims0, last_axis. cbn [shape]. rewrite Hsc.
  cbn [last Nat.eqb negb data].
  set (maincolors := amap over255 (squeeze _)).
  assert (Hk1 : Nat.eqb k 1 = false) by (apply Nat.eqb_neq; lia).
  assert (Hms : shape maincolors = [k; 3%nat]).
  { subst maincolors. unfold squeeze. cbn [amap shape].
    change (filter _ _) with (filter (fun n => negb (Nat.eqb n 1)) [1%nat; k; 3%nat]).
    rewrite squeeze_centers, Hk1. reflexivity. }
  assert (Hrows : Forall (fun l => exists v row, getitem maincolors l = Ok v /\
                                   broadcast_to v [3%nat] = Ok row) labels).
  { eapply Forall_impl; [|exact Hlab]. intros l Hl. cbv beta in Hl.
    now apply row_ok_matrix with (m := k). }
  destruct (fill_clusters_ok maincolors labels (h0 * w0) Hrows 0 (zeros (shape imarr)))
    as (c' & Hfill & Hc'); [rewrite Himarr; reflexivity|lia|].
  rewrite bind_lift, Hfill.
  rewrite bind_lift. unfold reshape at 1. unfold size. rewrite Hc'.
  rewrite Nat.eqb_sym, prod_flatten.
  rewrite bind_lift. cbn [Image_fromarray astype_uint8 amap shape data].
  erewrite bind_Ok by reflexivity.
  assert (Hne : labels <> []).
  { intros H0. rewrite H0 in Hlen. cbn in Hlen. lia. }
  assert (Hlenm : len maincolors = Ok k) by (unfold len; now rewrite Hms).
  destruct (compute_percent_spec labels maincolors k Hne Hlenm)
    as (pct & Hc & Hl & Hp & Hnn & Hsum); [lia|].
  rewrite bind_lift, Hc.
  eexists _, _. split; [reflexivity|].
  cbn [pic_mode pic_height pic_width colors percent].
  repeat split; try assumption; try reflexivity.
  unfold squeeze. rewrite Hms. cbn [filter]. rewrite Hk1. reflexivity.
Qed.

(** ** The files the pipelines touch *)

Lemma string_length_append (s t : string) :
  String.length (s ++ t) = (String.length s + String.length t)%nat.
Proof. induction s as [|a s IH]; cbn; [reflexivity|now rewrite IH]. Qed.

Lemma length_substring_prefix (s : string) (n : nat) :
  (n <= String.length s)%nat -> String.length (substring 0 n s) = n.
Proof.
  revert n. induction s as [|a s IH]; intros [|n] Hn; cbn in *; try reflexivity; try lia.
  rewrite IH by lia. reflexivity.
Qed.

Lemma get_some_lt (s : string) (n : nat) (c : ascii) :
  get n s = Some c -> (n < String.length s)%nat.
Proof.
  revert n. induction s as [|a s IH]; intros [|n] H; cbn in *; try discriminate; try lia.
  apply IH in H. lia.
Qed.

(** [rfind] returns the default or the position of an occurrence. *)
Lemma rfind_spec (c : ascii) (s : string) (pos found : Z) :
  rfind c s pos found = found \/
  (pos <= rfind c s pos found /\
   get (Z.to_nat (rfind c s pos found - pos)) s = Some c).
Proof.
  revert pos found. induction s as [|a s IH]; intros pos found; cbn [rfind].
  - now left.
  - destruct (IH (pos + 1) (if Ascii.eqb a c then pos else found)) as [H|[H1 H2]].
    + rewrite H. destruct (Ascii.eqb_spec a c) as [->|_]; [|now left].
      right. split; [lia|]. rewrite Z.sub_diag. reflexivity.
    + right. split; [lia|].
      replace (Z.to_nat (rfind c s (pos + 1) (if Ascii.eqb a c then pos else found) - pos))
        with (S (Z.to_nat (rfind c s (pos + 1) (if Ascii.eqb a c then pos else found)
                           - (pos + 1)))) by lia.
      exact H2.
Qed.

(** What [os.path.splitext] cuts off is empty or begins with a dot. *)
Lemma splitext_root_spec (p : string) :
  splitext_root p = p \/
  exists d, splitext_root p = substring 0 d p /\ get d p = Some "."%char.
Proof.
  unfold splitext_root.
  destruct (_ && _) eqn:Hc; [|now left].
  right. apply andb_prop in Hc. destruct Hc as [Hlt _]. apply Z.ltb_lt in Hlt.
  destruct (rfind_spec "." p 0 (-1)) as [H|[H1 H2]].
  - rewrite H in Hlt.
    destruct (rfind_spec "/" p 0 (-1)) as [H'|[H1' _]]; lia.
  - exists (Z.to_nat (rfind "." p 0 (-1))). unfold slice. rewrite Nat.sub_0_r.
    split; [reflexivity|]. now rewrite Z.sub_0_r in H2.
Qed.

(** The clustered image never goes to the file the image was read from. *)
Lemma clustered_name_differs (fname : string) : Package.clustered_name fname <> fname.
Proof.
  unfold Package.clustered_name. intros H.
  destruct (splitext_root_spec fname) as [Hr|(d & Hr & Hd)]; rewrite Hr in H.
  - apply (f_equal String.length) in H. rewrite string_length_append in H. cbn in H. lia.
  - pose proof (get_some_lt _ _ _ Hd) as Hlt.
    pose proof (append_correct2 (substring 0 d fname) "_clustered.png" 0) as Ha.
    rewrite length_substring_prefix in Ha by lia.
    rewrite H in Ha. cbn [Nat.add] in Ha. rewrite Hd in Ha. discriminate Ha.
Qed.





Section Files.
Context {E : Externals}.

Lemma writes_nothing_keeps {A} (g : string) (c : M E A) :
  writes_nothing c -> keeps_file g c.
Proof. intros H w. now rewrite H. Qed.

Lemma writes_nothing_ret {A} (a : A) : writes_nothing (ret (E := E) a).
Proof. intros w. reflexivity. Qed.

Lemma writes_nothing_lift {A} (r : result A) : writes_nothing (lift (E := E) r).
Proof. intros w. reflexivity. Qed.

Lemma writes_nothing_imread (f : string) : writes_nothing (cv2_imread E f).
Proof. intros w. reflexivity. Qed.

Lemma writes_nothing_open (f : string) : writes_nothing (Image_open E f).
Proof. intros w. reflexivity. Qed.

Lemma writes_nothing_fit (X : ndarray) (k : Z) : writes_nothing (KMeans_fit_global E X k).
Proof.
  intros w. unfold KMeans_fit_global. now destruct (KMeans_fit E (np_random w) X k).
Qed.

Lemma writes_nothing_bind {A B} (c : M E A) (f : A -> M E B) :
  writes_nothing c -> (forall a, writes_nothing (f a)) -> writes_nothing (bind c f).
Proof.
  intros Hc Hf w. unfold bind. specialize (Hc w).
  destruct (c w) as [[a|e] w']; cbn [snd] in *; [|exact Hc].
  now rewrite Hf.
Qed.

Lemma keeps_file_bind {A B} (g : string) (c : M E A) (f : A -> M E B) :
  keeps_file g c -> (forall a, keeps_file g (f a)) -> keeps_file g (bind c f).
Proof.
  intros Hc Hf w. unfold bind. specialize (Hc w).
  destruct (c w) as [[a|e] w']; cbn [snd] in *; [|exact Hc].
  now rewrite Hf.
Qed.

Lemma keeps_file_save (g name : string) (p : picture) :
  name <> g -> keeps_file g (Image_save E p name).
Proof.
  intros Hn w. unfold Image_save. cbn [snd fs lookup].
  destruct (String.eqb_spec name g); [contradiction|reflexivity].
Qed.

Lemma Paletti_writes_nothing (fname : string) (k : Z) :
  writes_nothing (Paletti.kmeans_palette E fname k).
Proof.
  unfold Paletti.kmeans_palette, Paletti.prepare, Paletti.cluster_and_assemble.
  repeat first
    [ apply writes_nothing_ret | apply writes_nothing_lift | apply writes_nothing_imread
    | apply writes_nothing_fit
    | apply writes_nothing_bind; [|intros]
    | match goal with |- writes_nothing (match ?x with _ => _ end) => destruct x end ].
Qed.

Lemma Package_keeps_file (fname g : string) (k : Z) :
  g <> Package.clustered_name fname ->
  keeps_file g (Package.kmeans_palette E fname k).
Proof.
  intros Hg.
  unfold Package.kmeans_palette, Package.prepare, Package.cluster_and_assemble.
  repeat first
    [ apply writes_nothing_keeps;
      first [ apply writes_nothing_ret | apply writes_nothing_lift
            | apply writes_nothing_open | apply writes_nothing_fit ]
    | apply keeps_file_save; congruence
    | apply keeps_file_bind; [|intros]
    | match goal with |- keeps_file _ (match ?x with _ => _ end) => destruct x end ].
Qed.

End Files.

(** ** What [kmeans_palette] returns, writes and raises *)

(** [kmeans_palette] of [paletti.py] with [k >= 2]: when the image was
    prepared and the clusterer returned [k] centres and at least one label,
    the call returns a Palette with [k] colours (shape (k, 3)) and [k]
    proportions that are non-negative and add up to one; it writes no file
    and leaves the generator in the state the clusterer left it in. *)
Theorem Paletti_kmeans_palette_entries (E : Externals) (fname : string) (w : world E)
      (imarr centers : ndarray) (rs : RandomState E) (k : nat) :
  Paletti.prepare E fname w = (Ok imarr, w) ->
  (2 <= k)%nat ->
  KMeans_fit E (np_random w) imarr (Z.of_nat k) = (Ok centers, rs) ->
  shape centers = [k; 3%nat] ->
  KMeans_predict E centers imarr <> [] ->
  exists pal,
    Paletti.kmeans_palette E fname (Z.of_nat k) w = (Ok pal, mk_world rs (fs w)) /\
    shape (colors pal) = [k; 3%nat] /\
    List.length (percent pal) = k /\
    Forall (fun p => 0 <= p)%Q (percent pal) /\
    Qsum (percent pal) == 1.
Proof.
  intros Hprep Hk Hfit Hsc Hne.
  destruct (Paletti_kmeans_palette_ok E fname w imarr centers rs k Hprep)
    as (pal & Hrun & Hs & Hl & _ & Hpos & Hsum); try assumption; [lia|].
  exists pal. repeat split; try assumption.
  rewrite Hs. destruct (Nat.eqb_spec k 1); [lia|reflexivity].
Qed.

Lemma Paletti_kmeans_palette_entries_witness :
  exists pal,
    Paletti.kmeans_palette Sample.externals "a.png" (Z.of_nat 3) (Sample.start 0)
      = (Ok pal, mk_world (1%nat : RandomState Sample.externals) Sample.disk) /\
    shape (colors pal) = [3%nat; 3%nat] /\
    List.length (percent pal) = 3%nat /\
    Forall (fun p => 0 <= p)%Q (percent pal) /\
    Qsum (percent pal) == 1.
Proof.
  eapply (Paletti_kmeans_palette_entries Sample.externals "a.png" (Sample.start 0)).
  - vm_compute. reflexivity.
  - lia.
  - vm_compute. reflexivity.
  - reflexivity.
  - vm_compute. discriminate.
Defined.

(** [kmeans_palette] of [paletti/paletti.py] with [k >= 2]: when the
    image was prepared and the clusterer returned [k] centres and one label
    in [0, k) per sample, the call returns a Palette with [k] colours and [k]
    proportions that are non-negative and add up to one, and it writes one
    file, the clustered image: an RGB image of the size of the prepared image
    under the name [<root>_clustered.png]. *)
Theorem Package_kmeans_palette_entries (E : Externals) (fname : string) (w : world E)
      (h0 w0 : nat) (imarr centers : ndarray) (rs : RandomState E) (k : nat) :
  Package.prepare E fname w = (Ok (h0, w0, imarr), w) ->
  shape imarr = [(h0 * w0)%nat; 3%nat] ->
  (0 < h0 * w0)%nat ->
  (2 <= k)%nat ->
  KMeans_fit E (np_random w) imarr (Z.of_nat k) = (Ok centers, rs) ->
  shape centers = [k; 3%nat] ->
  List.length (KMeans_predict E centers imarr) = (h0 * w0)%nat ->
  Forall (fun l => 0 <= l < Z.of_nat k) (KMeans_predict E centers imarr) ->
  exists pal pic,
    Package.kmeans_palette E fname (Z.of_nat k) w =
      (Ok pal, mk_world rs ((Package.clustered_name fname, ImageFile pic) :: fs w)) /\
    pic_mode pic = RGB /\ pic_height pic = h0 /\ pic_width pic = w0 /\
    shape (colors pal) = [k; 3%nat] /\
    List.length (percent pal) = k /\
    Forall (fun p => 0 <= p)%Q (percent pal) /\
    Qsum (percent pal) == 1.
Proof.
  intros Hprep Himarr Hpos Hk Hfit Hsc Hlen Hlab.
  destruct (Package_kmeans_palette_ok E fname w h0 w0 imarr centers rs k
              Hprep Himarr Hpos Hk Hfit Hsc Hlen Hlab)
    as (pal & pic & Hrun & Hm & Hh & Hw & Hs & Hl & _ & Hnn & Hsum).
  exists pal, pic. repeat split; assumption.
Qed.

Lemma Package_kmeans_palette_entries_witness :
  exists pal pic,
    Package.kmeans_palette Sample.externals "a.png" (Z.of_nat 3) (Sample.start 0) =
      (Ok pal, mk_world (1%nat : RandomState Sample.externals)
                        (("a_clustered.png", ImageFile pic) :: Sample.disk)) /\
    pic_mode pic = RGB /\ pic_height pic = 2%nat /\ pic_width pic = 2%nat /\
    shape (colors pal) = [3%nat; 3%nat] /\
    List.length (percent pal) = 3%nat /\
    Forall (fun p => 0 <= p)%Q (percent pal) /\
    Qsum (percent pal) == 1.
Proof.
  eapply (Package_kmeans_palette_entries Sample.externals "a.png" (Sample.start 0) 2 2).
  - vm_compute. reflexivity.
  - reflexivity.
  - vm_compute. lia.
  - lia.
  - vm_compute. reflexivity.
  - reflexivity.
  - vm_compute. reflexivity.
  - vm_compute. repeat constructor; discriminate.
Defined.

(** [kmeans_palette] of [paletti.py]: with [k >= 2], when the labels 0
    and [k - 1] both occur among the labels, which all lie in [0, k), the
    proportion at index [j] is the number of samples labelled [j] divided by
    the number of samples. *)
Theorem Paletti_kmeans_palette_frequencies (E : Externals) (fname : string) (w : world E)
      (imarr centers : ndarray) (rs : RandomState E) (k : nat) :
  Paletti.prepare E fname w = (Ok imarr, w) ->
  (2 <= k)%nat ->
  KMeans_fit E (np_random w) imarr (Z.of_nat k) = (Ok centers, rs) ->
  shape centers = [k; 3%nat] ->
  spans (KMeans_predict E centers imarr) k ->
  exists pal,
    Paletti.kmeans_palette E fname (Z.of_nat k) w = (Ok pal, mk_world rs (fs w)) /\
    Forall2 Qeq (percent pal)
      (map (fun j => inject_Z (count_bin (KMeans_predict E centers imarr) j)
                     / inject_Z (Z.of_nat (List.length (KMeans_predict E centers imarr))))%Q
           (seq 0 k)).
Proof.
  intros Hprep Hk Hfit Hsc Hs.
  assert (Hne : KMeans_predict E centers imarr <> []).
  { destruct Hs as (_ & H0 & _). intros H. rewrite H in H0. destruct H0. }
  destruct (Paletti_kmeans_palette_ok E fname w imarr centers rs k Hprep)
    as (pal & Hrun & _ & _ & Hp & _); try assumption; [lia|].
  exists pal. split; [exact Hrun|].
  now rewrite (bin_indices_spans _ k Hk Hs) in Hp.
Qed.

Lemma Paletti_kmeans_palette_frequencies_witness :
  exists pal,
    Paletti.kmeans_palette Sample.externals "a.png" (Z.of_nat 3) (Sample.start 0)
      = (Ok pal, mk_world (1%nat : RandomState Sample.externals) Sample.disk) /\
    Forall2 Qeq (percent pal) [3 # 4; 0; 1 # 4]%Q.
Proof.
  edestruct (Paletti_kmeans_palette_frequencies Sample.externals "a.png" (Sample.start 0))
    as (pal & Hrun & Hp).
  - vm_compute. reflexivity.
  - instantiate (1 := 3%nat). lia.
  - vm_compute. reflexivity.
  - reflexivity.
  - vm_compute. split; [repeat constructor; discriminate|]. split; [now left|].
    right. right. now left.
  - exists pal. split; [exact Hrun|].
    eapply Forall2_Qeq_trans; [exact Hp|]. vm_compute.
    repeat constructor.
Defined.

(** [kmeans_palette] of [paletti/paletti.py]: with [k >= 2], when there
    is one label per sample and the labels 0 and [k - 1] both occur among the
    labels, which all lie in [0, k), the proportion at index [j] is the
    number of samples labelled [j] divided by the number of samples. *)
Theorem Package_kmeans_palette_frequencies (E : Externals) (fname : string) (w : world E)
      (h0 w0 : nat) (imarr centers : ndarray) (rs : RandomState E) (k : nat) :
  Package.prepare E fname w = (Ok (h0, w0, imarr), w) ->
  shape imarr = [(h0 * w0)%nat; 3%nat] ->
  (0 < h0 * w0)%nat ->
  (2 <= k)%nat ->
  KMeans_fit E (np_random w) imarr (Z.of_nat k) = (Ok centers, rs) ->
  shape centers = [k; 3%nat] ->
  List.length (KMeans_predict E centers imarr) = (h0 * w0)%nat ->
  spans (KMeans_predict E centers imarr) k ->
  exists pal w',
    Package.kmeans_palette E fname (Z.of_nat k) w = (Ok pal, w') /\
    Forall2 Qeq (percent pal)
      (map (fun j => inject_Z (count_bin (KMeans_predict E centers imarr) j)
                     / inject_Z (Z.of_nat (List.length (KMeans_predict E centers imarr))))%Q
           (seq 0 k)).
Proof.
  intros Hprep Himarr Hpos Hk Hfit Hsc Hlen Hs.
  destruct (Package_kmeans_palette_ok E fname w h0 w0 imarr centers rs k
              Hprep Himarr Hpos Hk Hfit Hsc Hlen (proj1 Hs))
    as (pal & pic & Hrun & _ & _ & _ & _ & _ & Hp & _).
  exists pal. eexists. split; [exact Hrun|].
  now rewrite (bin_indices_spans _ k Hk Hs) in Hp.
Qed.

Lemma Package_kmeans_palette_frequencies_witness :
  exists pal w',
    Package.kmeans_palette Sample.externals "a.png" (Z.of_nat 3) (Sample.start 0)
      = (Ok pal, w') /\
    Forall2 Qeq (percent pal) [3 # 4; 0; 1 # 4]%Q.
Proof.
  edestruct (Package_kmeans_palette_frequencies Sample.externals "a.png" (Sample.start 0) 2 2)
    as (pal & w' & Hrun & Hp).
  - vm_compute. reflexivity.
  - reflexivity.
  - vm_compute. lia.
  - instantiate (1 := 3%nat). lia.
  - vm_compute. reflexivity.
  - reflexivity.
  - vm_compute. reflexivity.
  - vm_compute. split; [repeat constructor; discriminate|]. split; [now left|].
    right. right. now left.
  - exists pal, w'. split; [exact Hrun|].
    eapply Forall2_Qeq_trans; [exact Hp|]. vm_compute.
    repeat constructor.
Defined.

(** Whatever the outcome of the call, [kmeans_palette] of [paletti.py]
    writes no file, and [kmeans_palette] of [paletti/paletti.py] changes no
    file other than [<root>_clustered.png]; that name is never the name of
    the image it read, so the input is never overwritten. *)
Theorem kmeans_palette_keeps_files (E : Externals) (fname : string) (k : Z) (w : world E) :
  fs (snd (Paletti.kmeans_palette E fname k w)) = fs w /\
  (forall g, g <> Package.clustered_name fname ->
     lookup g (fs (snd (Package.kmeans_palette E fname k w))) = lookup g (fs w)) /\
  lookup fname (fs (snd (Package.kmeans_palette E fname k w))) = lookup fname (fs w).
Proof.
  split; [apply Paletti_writes_nothing|]. split.
  - intros g Hg. now apply Package_keeps_file.
  - apply Package_keeps_file. intros H. symmetry in H. now apply clustered_name_differs in H.
Qed.

(** When the name is that of no image (a missing file or a file that
    is not an image), [kmeans_palette] fails before the clusterer is called:
    in [paletti.py] with OpenCV's error ([cv2.imread] returned [None], which
    [cv2.cvtColor] rejects), in [paletti/paletti.py] with [IOError] from
    [Image.open].  Files and generator are as before. *)
Theorem kmeans_palette_unreadable (E : Externals) (fname : string) (k : Z) (w : world E) :
  (forall p, lookup fname (fs w) <> Some (ImageFile p)) ->
  Paletti.kmeans_palette E fname k w = (Raise cv2_error, w) /\
  Package.kmeans_palette E fname k w = (Raise IOError, w).
Proof.
  intros Hl. split.
  - unfold Paletti.kmeans_palette. erewrite bind_Raise; [reflexivity|].
    now apply Paletti_prepare_unreadable.
  - unfold Package.kmeans_palette, Package.prepare.
    erewrite bind_Raise; [reflexivity|]. erewrite bind_Raise; [reflexivity|].
    unfold Image_open. destruct (lookup fname (fs w)) as [[p|]|]; try reflexivity.
    now destruct (Hl p).
Qed.

Lemma kmeans_palette_unreadable_witness :
  Paletti.kmeans_palette Sample.externals "notes.txt" 5 (Sample.start 0)
    = (Raise cv2_error, Sample.start 0) /\
  Package.kmeans_palette Sample.externals "notes.txt" 5 (Sample.start 0)
    = (Raise IOError, Sample.start 0).
Proof.
  apply kmeans_palette_unreadable. intros p. vm_compute. discriminate.
Defined.

(** ** The other strategies *)

Lemma Qsum_divided (l : list Q) (s : Q) :
  ~ s == 0 -> Qsum (map (fun p => p / s)%Q l) == Qsum l / s.
Proof.
  intros Hs. induction l as [|a l IH].
  - cbn. field. exact Hs.
  - rewrite map_cons, !Qsum_cons, IH. field. exact Hs.
Qed.

(** [percent /= percent.sum()] makes the proportions add up to one, unless
    they add up to zero. *)
Lemma normalize_sum (l : list Q) : ~ Qsum l == 0 -> Qsum (normalize l) == 1.
Proof.
  intros Hs. unfold normalize. rewrite Qsum_divided by exact Hs. field. exact Hs.
Qed.

Lemma normalize_length (l : list Q) : List.length (normalize l) = List.length l.
Proof. unfold normalize. apply length_map. Qed.


Lemma color_array_shape (cs : list (Z * Z * Z)) :
  shape (Paletti.color_array cs) = [List.length cs; 3%nat].
Proof. reflexivity. Qed.

(** [colorific_palette], in both versions: when the file is an image and the
    colours that colorific extracts have a non-zero total prominence, the call
    returns one colour per extracted colour and the prominences divided by
    their sum, which add up to one.  The world is unchanged. *)
Theorem colorific_palette_proportions (E : Externals) (imfile : string) (k : Z)
        (w : world E) (p : picture) :
  lookup imfile (fs w) = Some (ImageFile p) ->
  extract_colors E p k <> [] ->
  ~ Qsum (map snd (extract_colors E p k)) == 0 ->
  exists pal,
    Paletti.colorific_palette E imfile k w = (Ok pal, w) /\
    Package.colorific_palette E imfile k w = (Ok pal, w) /\
    shape (colors pal) = [List.length (extract_colors E p k); 3%nat] /\
    percent pal = map (fun x => x / Qsum (map snd (extract_colors E p k)))%Q
                      (map snd (extract_colors E p k)) /\
    Qsum (percent pal) == 1.
Proof.
  intros Hl Hne Hs.
  assert (Hrun : Paletti.colorific_palette E imfile k w
                 = (Ok (mk_Palette (Paletti.color_array (map fst (extract_colors E p k)))
                                   (normalize (map snd (extract_colors E p k)))), w)).
  { unfold Paletti.colorific_palette.
    erewrite bind_Ok by (unfold Image_open; rewrite Hl; reflexivity).
    rewrite bind_lift.
    destruct (extract_colors E p k) as [|c cs]; [congruence|]. reflexivity. }
  eexists. split; [exact Hrun|]. split; [exact Hrun|].
  cbn [colors percent]. split.
  - rewrite color_array_shape, length_map. reflexivity.
  - split; [reflexivity|]. now apply normalize_sum.
Qed.

(** [pil_palette]: [paletti.py] quantises the image resized to 150 x 150
    whatever its size, [paletti/paletti.py] the thumbnail within 600 x 600.
    When PIL reports colours with a non-zero total count (and no more of them
    than [getcolors] admits), the call returns one colour per reported colour
    and the counts divided by their sum, which add up to one. *)
Theorem pil_palette_proportions (E : Externals) (imfile : string) (k : Z)
        (w : world E) (p : picture) :
  lookup imfile (fs w) = Some (ImageFile p) ->
  let res1 := adaptive_colors E (Image_resize E p Paletti.rsize Paletti.rsize NEAREST) k in
  let res2 := adaptive_colors E (Image_thumbnail E p Package.RSIZE Package.RSIZE ANTIALIAS) k in
  (List.length res1 <= Paletti.rsize * Paletti.rsize)%nat ->
  (List.length res2 <= Package.RSIZE * Package.RSIZE)%nat ->
  ~ Qsum (map (fun x => inject_Z (fst x)) res1) == 0 ->
  ~ Qsum (map (fun x => inject_Z (fst x)) res2) == 0 ->
  exists pal1 pal2,
    Paletti.pil_palette E imfile k w = (Ok pal1, w) /\
    Package.pil_palette E imfile k w = (Ok pal2, w) /\
    shape (colors pal1) = [List.length res1; 3%nat] /\
    shape (colors pal2) = [List.length res2; 3%nat] /\
    percent pal1 = map (fun x => inject_Z (fst x) / Qsum (map (fun x => inject_Z (fst x)) res1))%Q res1 /\
    percent pal2 = map (fun x => inject_Z (fst x) / Qsum (map (fun x => inject_Z (fst x)) res2))%Q res2 /\
    Qsum (percent pal1) == 1 /\
    Qsum (percent pal2) == 1.
Proof.
  intros Hl res1 res2 Hn1 Hn2 Hs1 Hs2.
  assert (Hrun1 : Paletti.pil_palette E imfile k w
                  = (Ok (mk_Palette (Paletti.color_array (map snd res1))
                           (normalize (map (fun x => inject_Z (fst x)) res1))), w)).
  { unfold Paletti.pil_palette.
    erewrite bind_Ok by (unfold Image_open; rewrite Hl; reflexivity).
    rewrite bind_lift. fold res1.
    destruct (Nat.ltb_spec (Paletti.rsize * Paletti.rsize) (List.length res1)) as [H|_];
      [lia|reflexivity]. }
  assert (Hrun2 : Package.pil_palette E imfile k w
                  = (Ok (mk_Palette (Paletti.color_array (map snd res2))
                           (normalize (map (fun x => inject_Z (fst x)) res2))), w)).
  { unfold Package.pil_palette.
    erewrite bind_Ok by (unfold Image_open; rewrite Hl; reflexivity).
    rewrite bind_lift. fold res2.
    destruct (Nat.ltb_spec (Package.RSIZE * Package.RSIZE) (List.length res2)) as [H|_];
      [lia|reflexivity]. }
  eexists _, _. split; [exact Hrun1|]. split; [exact Hrun2|].
  cbn [colors percent]. rewrite !color_array_shape, !length_map.
  repeat split; try reflexivity.
  - unfold normalize. now rewrite map_map.
  - unfold normalize. now rewrite map_map.
  - now apply normalize_sum.
  - now apply normalize_sum.
Qed.


(** When a colour service answers with no colour at all, the strategies
    raise: [colorific_palette] an [IndexError] from indexing the empty array,
    [pictaculous_palette] a [ZeroDivisionError] from [1.0 / len(maincolors)]. *)
Theorem palette_of_no_colours (E : Externals) (imfile : string) (k : Z) (w : world E)
        (p : picture) :
  lookup imfile (fs w) = Some (ImageFile p) ->
  extract_colors E p k = [] ->
  pictaculous_colors E (ImageFile p) = Ok [] ->
  Paletti.colorific_palette E imfile k w = (Raise IndexError, w) /\
  Paletti.pictaculous_palette E imfile w = (Raise Paletti.ZeroDivisionError, w).
Proof.
  intros Hl He Hp. split.
  - unfold Paletti.colorific_palette.
    erewrite bind_Ok by (unfold Image_open; rewrite Hl; reflexivity).
    rewrite bind_lift, He. reflexivity.
  - unfold Paletti.pictaculous_palette.
    erewrite bind_Ok by (rewrite Hl; reflexivity).
    rewrite bind_lift, Hp. reflexivity.
Qed.

Lemma colorific_palette_proportions_witness :
  exists pal,
    Paletti.colorific_palette Service.answering "a.png" 2 (Service.start Service.answering 0%nat)
      = (Ok pal, Service.start Service.answering 0%nat) /\
    Package.colorific_palette Service.answering "a.png" 2 (Service.start Service.answering 0%nat)
      = (Ok pal, Service.start Service.answering 0%nat) /\
    shape (colors pal) = [2%nat; 3%nat] /\
    Qsum (percent pal) == 1.
Proof.
  destruct (colorific_palette_proportions Service.answering "a.png" 2
              (Service.start Service.answering 0%nat) Sample.rgb_2x2)
    as (pal & H1 & H2 & H3 & _ & H5).
  - reflexivity.
  - discriminate.
  - intros H. vm_compute in H. discriminate H.
  - exists pal. repeat split; assumption.
Defined.

Lemma pil_palette_proportions_witness :
  let w := Service.start Service.two_tone 0%nat in
  exists pal1 pal2,
    Paletti.pil_palette Service.two_tone "a.png" 2 w = (Ok pal1, w) /\
    Package.pil_palette Service.two_tone "a.png" 2 w = (Ok pal2, w) /\
    shape (colors pal1) = [2%nat; 3%nat] /\
    shape (colors pal2) = [2%nat; 3%nat] /\
    Forall2 Qeq (percent pal1) [3 # 4; 1 # 4]%Q /\
    Forall2 Qeq (percent pal2) [3 # 4; 1 # 4]%Q /\
    Qsum (percent pal1) == 1 /\ Qsum (percent pal2) == 1.
Proof.
  intros w.
  destruct (pil_palette_proportions Service.two_tone "a.png" 2 w Sample.rgb_2x2)
    as (pal1 & pal2 & H1 & H2 & H3 & H4 & H5 & H6 & H7 & H8).
  - reflexivity.
  - apply Nat.leb_le. vm_compute. reflexivity.
  - apply Nat.leb_le. vm_compute. reflexivity.
  - intros H. vm_compute in H. discriminate H.
  - intros H. vm_compute in H. discriminate H.
  - exists pal1, pal2. split; [exact H1|]. split; [exact H2|].
    split; [exact H3|]. split; [exact H4|].
    split; [rewrite H5; vm_compute; repeat constructor|].
    split; [rewrite H6; vm_compute; repeat constructor|].
    split; assumption.
Defined.


Lemma palette_of_no_colours_witness :
  Paletti.colorific_palette Service.silent "a.png" 5 (Service.start Service.silent 0%nat)
    = (Raise IndexError, Service.start Service.silent 0%nat) /\
  Paletti.pictaculous_palette Service.silent "a.png" (Service.start Service.silent 0%nat)
    = (Raise Paletti.ZeroDivisionError, Service.start Service.silent 0%nat).
Proof.
  apply (palette_of_no_colours Service.silent "a.png" 5 (Service.start Service.silent 0%nat)
           Sample.rgb_2x2); reflexivity.
Defined.

(** ** More on hexadecimal colour codes *)

Lemma hex2rgb_value (s : string) :
  (if startswith s "#" then lstrip "#" s else s) = lstrip "#" s.
Proof.
  destruct s as [|a s]; [reflexivity|].
  unfold startswith. cbn [String.prefix lstrip].
  destruct (ascii_dec "#" a) as [<-|Hne].
  - destruct s; reflexivity.
  - destruct (Ascii.eqb_spec a "#") as [->|_]; [congruence|reflexivity].
Qed.

(** Leading hash signs, however many, do not matter to [hex2rgb]. *)
Theorem hex2rgb_leading_hashes (s : string) :
  hex2rgb (String "#" s) = hex2rgb s /\ hex2rgb s = hex2rgb (lstrip "#" s).
Proof.
  assert (H : forall t, hex2rgb t = hex2rgb (lstrip "#" t)).
  { intros t. unfold hex2rgb. rewrite !hex2rgb_value.
    assert (Hi : lstrip "#" (lstrip "#" t) = lstrip "#" t).
    { induction t as [|a t IH]; [reflexivity|]. cbn [lstrip].
      destruct (Ascii.eqb a "#") eqn:Ha; [exact IH|]. cbn [lstrip]. now rewrite Ha. }
    now rewrite Hi. }
  split; [|apply H].
  rewrite (H (String "#" s)), (H s). reflexivity.
Qed.

(** A code of fewer than three characters (the hash signs not counted) is
    rejected with [ValueError]: the slice width [lv // 3] is zero and [range]
    refuses a zero step. *)
Theorem hex2rgb_too_short (s : string) :
  (String.length (lstrip "#" s) < 3)%nat -> hex2rgb s = Raise ValueError.
Proof.
  intros Hlen. unfold hex2rgb. rewrite hex2rgb_value.
  replace (String.length (lstrip "#" s) / 3)%nat with 0%nat; [reflexivity|].
  symmetry. apply Nat.div_small. exact Hlen.
Qed.

Lemma hex2rgb_too_short_witness : hex2rgb "##ab" = Raise ValueError.
Proof. apply hex2rgb_too_short. cbn. lia. Defined.

Lemma lower_hex_pair (c1 c2 : ascii) :
  is_lower_hex c1 = true -> is_lower_hex c2 = true ->
  exists v, 0 <= v <= 255 /\
            int16 (String c1 (String c2 EmptyString)) = Ok v /\
            fmt_02x v = String c1 (String c2 EmptyString) /\
            Ascii.eqb c1 "#" = false.
Proof.
  unfold is_lower_hex. rewrite !existsb_exists.
  intros (a1 & Hin1 & He1) (a2 & Hin2 & He2).
  apply Ascii.eqb_eq in He1, He2. subst a1 a2.
  cbn in Hin1, Hin2.
  repeat (destruct Hin1 as [<-|Hin1]; [|]); try contradiction;
    (repeat (destruct Hin2 as [<-|Hin2]; [|]); try contradiction;
     eexists; (split; [|split; [vm_compute; reflexivity|split; [vm_compute; reflexivity|reflexivity]]]);
     lia).
Qed.

(** Decoding a code of six lower-case hexadecimal digits, with or without
    the hash sign, gives three channels in 0..255, and [rgb2hex] prints them
    as the same six digits behind a hash sign. *)
Theorem rgb2hex_hex2rgb (c1 c2 c3 c4 c5 c6 : ascii) :
  forallb is_lower_hex [c1; c2; c3; c4; c5; c6] = true ->
  let digits := string_of_list_ascii [c1; c2; c3; c4; c5; c6] in
  exists r g b,
    hex2rgb (String "#" digits) = Ok [r; g; b] /\
    hex2rgb digits = Ok [r; g; b] /\
    0 <= r <= 255 /\ 0 <= g <= 255 /\ 0 <= b <= 255 /\
    rgb2hex (r, g, b) = String "#" digits.
Proof.
  intros Hall digits. cbn [forallb] in Hall.
  repeat (apply andb_prop in Hall; destruct Hall as [? Hall]).
  destruct (lower_hex_pair c1 c2) as (r & Hr & Ir & Fr & Nr); try assumption.
  destruct (lower_hex_pair c3 c4) as (g & Hg & Ig & Fg & _); try assumption.
  destruct (lower_hex_pair c5 c6) as (b & Hb & Ib & Fb & _); try assumption.
  exists r, g, b.
  assert (Hd : hex2rgb digits = Ok [r; g; b]).
  { unfold hex2rgb. rewrite hex2rgb_value. subst digits.
    cbn [string_of_list_ascii lstrip]. rewrite Nr.
    cbn -[int16]. rewrite Ir, Ig, Ib. reflexivity. }
  split; [|split; [exact Hd|]].
  - rewrite (proj1 (hex2rgb_leading_hashes digits)). exact Hd.
  - repeat (split; [lia|]). unfold rgb2hex. rewrite Fr, Fg, Fb. reflexivity.
Qed.

Lemma rgb2hex_hex2rgb_witness :
  exists r g b,
    hex2rgb "#12ab9f" = Ok [r; g; b] /\
    hex2rgb "12ab9f" = Ok [r; g; b] /\
    0 <= r <= 255 /\ 0 <= g <= 255 /\ 0 <= b <= 255 /\
    rgb2hex (r, g, b) = "#12ab9f".
Proof.
  apply (rgb2hex_hex2rgb "1" "2" "a" "b" "9" "f"). reflexivity.
Defined.

Lemma rmap_length {A B} (f : A -> result B) (l : list A) (l' : list B) :
  rmap f l = Ok l' -> List.length l' = List.length l.
Proof.
  revert l'. induction l as [|a l IH]; intros l' H; cbn in H.
  - now injection H as <-.
  - destruct (f a) as [b|]; cbn in H; [|discriminate].
    destruct (rmap f l) as [bs|]; cbn in H; [|discriminate].
    injection H as <-. cbn. f_equal. now apply IH.
Qed.

Lemma range_step_length (step : nat) :
  (0 < step)%nat ->
  forall fuel i lv, (lv - i <= fuel)%nat ->
    List.length (range_step fuel i lv step) = ((lv - i + (step - 1)) / step)%nat.
Proof.
  intros Hs. induction fuel as [|fuel IH]; intros i lv Hf.
  - cbn. replace (lv - i)%nat with 0%nat by lia. cbn [Nat.add].
    symmetry. apply Nat.div_small. lia.
  - cbn [range_step]. destruct (Nat.ltb_spec i lv) as [Hlt|Hge].
    + cbn [List.length]. rewrite IH by lia.
      destruct (Nat.le_gt_cases step (lv - i)) as [Hle|Hgt].
      * replace (lv - i + (step - 1))%nat with ((lv - (i + step) + (step - 1)) + 1 * step)%nat
          by lia.
        rewrite Nat.div_add by lia. lia.
      * replace (lv - (i + step))%nat with 0%nat by lia. cbn [Nat.add].
        rewrite (Nat.div_small (step - 1) step) by lia.
        apply (Nat.div_unique _ _ 1%nat (lv - i - 1)%nat); lia.
    + cbn. replace (lv - i)%nat with 0%nat by lia. cbn [Nat.add].
      symmetry. apply Nat.div_small. lia.
Qed.

(** [hex2rgb] does not insist on three channels: a code whose length is no
    multiple of three is cut into slices of [lv // 3] characters and yields
    more than three numbers. *)
Theorem hex2rgb_channels (s : string) (l : list Z) :
  hex2rgb s = Ok l ->
  let lv := String.length (lstrip "#" s) in
  (3 <= lv)%nat /\
  ((lv mod 3 = 0)%nat -> List.length l = 3%nat) /\
  ((lv mod 3 <> 0)%nat -> (3 < List.length l <= 5)%nat).
Proof.
  intros H lv. unfold hex2rgb in H. rewrite hex2rgb_value in H. fold lv in H.
  destruct (Nat.eqb_spec (lv / 3) 0) as [H0|Hq]; [discriminate H|].
  apply rmap_length in H. rewrite range_step_length in H by lia.
  rewrite Nat.sub_0_r in H.
  pose proof (Nat.div_mod_eq lv 3) as Hdm.
  pose proof (Nat.mod_upper_bound lv 3 ltac:(lia)) as Hm.
  set (q := (lv / 3)%nat) in *. set (r := (lv mod 3)%nat) in *.
  split; [lia|]. split.
  - intros Hr. rewrite H.
    apply eq_sym, (Nat.div_unique _ _ _ (q - 1)%nat); lia.
  - intros Hr. rewrite H.
    assert (Hlo : (4 <= (lv + (q - 1)) / q)%nat).
    { apply Nat.div_le_lower_bound; lia. }
    assert (Hhi : ((lv + (q - 1)) / q <= 5)%nat).
    { apply Nat.Div0.div_le_upper_bound. nia. }
    lia.
Qed.

Lemma hex2rgb_channels_witness :
  hex2rgb "#12345" = Ok [1; 2; 3; 4; 5] /\
  (3 < List.length [1; 2; 3; 4; 5] <= 5)%nat.
Proof.
  assert (H : hex2rgb "#12345" = Ok [1; 2; 3; 4; 5]) by reflexivity.
  split; [exact H|].
  apply (hex2rgb_channels "#12345" [1; 2; 3; 4; 5] H). cbn. lia.
Defined.

(** ** Doubles *)

Lemma two_nonzero : ~ (2 == 0)%Q.
Proof. discriminate. Qed.

Lemma pow2_pos (e : Z) : (0 < 2 ^ e)%Q.
Proof. apply Qpower_0_lt. reflexivity. Qed.

Lemma pow2_pred (e : Z) : (2 ^ (e - 1) == 2 ^ e / 2)%Q.
Proof. rewrite Qpower_minus by apply two_nonzero. reflexivity. Qed.

Lemma ilog2_le (x : Q) : (0 < x)%Q -> (2 ^ ilog2 x <= x)%Q.
Proof.
  intros Hx. unfold ilog2.
  destruct (Qle_bool (2 ^ (Z.log2 (Qnum x) - Z.log2 (Z.pos (Qden x)))) x) eqn:Hc.
  - now apply Qle_bool_iff.
  - clear Hc. destruct x as [n d]. cbn [Qnum Qden].
    assert (Hn : 0 < n) by (unfold Qlt in Hx; cbn in Hx; lia).
    pose proof (Z.log2_spec n Hn) as [Hn1 _].
    pose proof (Z.log2_spec (Z.pos d) eq_refl) as [_ Hd2].
    pose proof (Z.log2_nonneg n) as Hln.
    pose proof (Z.log2_nonneg (Z.pos d)) as Hld.
    replace (Z.log2 n - Z.log2 (Z.pos d) - 1) with (Z.log2 n - Z.succ (Z.log2 (Z.pos d))) by lia.
    rewrite Qpower_minus by apply two_nonzero.
    assert (E1 : (2 ^ Z.log2 n == inject_Z (2 ^ Z.log2 n))%Q)
      by (rewrite Zpower_Qpower by lia; reflexivity).
    assert (E2 : (2 ^ Z.succ (Z.log2 (Z.pos d)) == inject_Z (2 ^ Z.succ (Z.log2 (Z.pos d))))%Q)
      by (rewrite Zpower_Qpower by lia; reflexivity).
    rewrite E1, E2. clear E1 E2.
    set (A := 2 ^ Z.log2 n) in *. set (B := 2 ^ Z.succ (Z.log2 (Z.pos d))) in *.
    assert (HA : 0 < A) by (subst A; apply Z.pow_pos_nonneg; lia).
    assert (HB : 0 < B) by lia.
    apply Qle_shift_div_r.
    + change 0%Q with (inject_Z 0). rewrite <- Zlt_Qlt. exact HB.
    + unfold Qle, Qmult, inject_Z. cbn [Qnum Qden]. nia.
Qed.

Lemma round_half_even_error (y : Q) :
  (Qabs (inject_Z (round_half_even y) - y) <= 1 # 2)%Q.
Proof.
  unfold round_half_even.
  pose proof (Qfloor_le y) as Hl. pose proof (Qlt_floor y) as Hu.
  rewrite inject_Z_plus in Hu. change (inject_Z 1) with 1%Q in Hu.
  apply Qabs_Qle_condition.
  destruct (y - inject_Z (Qfloor y) ?= 1 # 2)%Q eqn:Hc.
  - apply Qeq_alt in Hc. destruct (Z.even (Qfloor y)).
    + set (f := inject_Z (Qfloor y)) in *. split; lra.
    + rewrite inject_Z_plus. change (inject_Z 1) with 1%Q.
      set (f := inject_Z (Qfloor y)) in *. split; lra.
  - apply Qlt_alt in Hc. set (f := inject_Z (Qfloor y)) in *. split; lra.
  - apply Qgt_alt in Hc. rewrite inject_Z_plus. change (inject_Z 1) with 1%Q.
    set (f := inject_Z (Qfloor y)) in *. split; lra.
Qed.

Lemma round_half_even_nonneg (y : Q) : (0 <= y)%Q -> 0 <= round_half_even y.
Proof.
  intros Hy. unfold round_half_even.
  assert (Hf : 0 <= Qfloor y).
  { change 0 with (Qfloor 0). now apply Qfloor_resp_le. }
  destruct (y - inject_Z (Qfloor y) ?= 1 # 2)%Q; [destruct (Z.even _)| |]; lia.
Qed.

Lemma Qabs_positive (x : Q) : (0 < x)%Q -> Qabs x = x.
Proof.
  destruct x as [n d]. unfold Qlt. cbn. intros H. unfold Qabs. f_equal. lia.
Qed.

(** A double is not negative when the real number it rounds is not. *)
Lemma binary64_nonneg (x : Q) : (0 <= x)%Q -> (0 <= binary64 x)%Q.
Proof.
  intros Hx. unfold binary64. destruct (Qeq_bool x 0); [apply Qle_refl|].
  rewrite Qred_correct.
  assert (Hb : Qle_bool 0 x = true) by now apply Qle_bool_iff.
  rewrite Hb. apply Qmult_le_0_compat.
  - change 0%Q with (inject_Z 0). rewrite <- Zle_Qle.
    apply round_half_even_nonneg. apply Qle_shift_div_l; [apply pow2_pos|].
    rewrite Qmult_0_l. apply Qabs_nonneg.
  - apply Qlt_le_weak, pow2_pos.
Qed.

(** The rounding error of a number below [2 ** (e + 1)], in the range where
    doubles have 53 significant bits, is at most half a unit in the last
    place of that binade. *)
Lemma binary64_error (x : Q) (e : Z) :
  (0 <= x)%Q -> (x < 2 ^ (e + 1))%Q -> -1022 <= e ->
  (Qabs (binary64 x - x) <= 2 ^ (e - 53))%Q.
Proof.
  intros Hx Hlt He. unfold binary64.
  destruct (Qeq_bool x 0) eqn:Hz.
  - apply Qeq_bool_iff in Hz. rewrite Hz. apply Qlt_le_weak. apply pow2_pos.
  - assert (Hpos : (0 < x)%Q).
    { apply Qle_lteq in Hx. destruct Hx as [H|H]; [exact H|].
      symmetry in H. apply Qeq_bool_iff in H. congruence. }
    rewrite (Qabs_positive x Hpos), Qred_correct.
    assert (Hb : Qle_bool 0 x = true) by (apply Qle_bool_iff; now apply Qlt_le_weak).
    rewrite Hb.
    set (t := Z.max (ilog2 x - 52) (-1074)).
    assert (Ht : t <= e - 52).
    { pose proof (ilog2_le x Hpos) as Hl.
      assert (Hi : ilog2 x < e + 1).
      { apply (Qpower_lt_compat_l_inv 2); [|reflexivity].
        eapply Qle_lt_trans; eassumption. }
      subst t. lia. }
    pose proof (round_half_even_error (x / 2 ^ t)) as Hr.
    pose proof (pow2_pos t) as Hq.
    set (m := inject_Z (round_half_even (x / 2 ^ t))) in *.
    assert (Heq : (m * 2 ^ t - x == (m - x / 2 ^ t) * 2 ^ t)%Q).
    { field. intros H0. rewrite H0 in Hq. now apply Qlt_irrefl in Hq. }
    rewrite Heq, Qabs_Qmult, (Qabs_pos (2 ^ t)) by now apply Qlt_le_weak.
    apply Qle_trans with ((1 # 2) * 2 ^ t)%Q.
    + apply Qmult_le_compat_r; [exact Hr|now apply Qlt_le_weak].
    + apply Qle_trans with (2 ^ (t - 1))%Q.
      * rewrite pow2_pred. apply Qle_lteq. right. field.
      * apply Qpower_le_compat_l; [lia|discriminate].
Qed.

(** ** The palette strip *)

Lemma bars_of_contiguous {C} (width : Q) (pairs : list (Q * C)) (start : Q) :
  contiguous (Qtruncate start) (bars_of width start pairs).
Proof.
  revert start. induction pairs as [|[p c] rest IH]; intros start; cbn; [exact I|].
  split; [reflexivity|apply IH].
Qed.

Lemma bars_of_colours {C} (width : Q) (pairs : list (Q * C)) (start : Q) :
  map snd (bars_of width start pairs) = map snd pairs.
Proof.
  revert start. induction pairs as [|[p c] rest IH]; intros start; cbn; [reflexivity|].
  now rewrite IH.
Qed.

Lemma bars_of_last {C} (width : Q) (pairs : list (Q * C)) (start : Q) :
  last_column (Qtruncate start) (bars_of width start pairs)
  = Qtruncate (fold_left (fun s p => binary64 (s + binary64 (p * width)))
                         (map fst pairs) start).
Proof.
  unfold last_column. revert start. induction pairs as [|[p c] rest IH]; intros start;
    [reflexivity|].
  cbn [bars_of fold_left map fst snd]. apply IH.
Qed.

Lemma Paletti_draw_bars_spec (rect : ndarray -> Z * Z -> Z * Z -> list Q -> ndarray)
      (pairs : list (Q * list Q)) (palette : ndarray) (start : Q) :
  Paletti.draw_bars rect palette start pairs
  = fold_left (fun img bar => rect img (fst (fst bar), 0) (snd (fst bar), 50) (snd bar))
              (bars_of 300 start pairs) palette.
Proof.
  revert palette start. induction pairs as [|[p c] rest IH]; intros palette start;
    [reflexivity|].
  cbn [Paletti.draw_bars bars_of fold_left fst snd]. apply IH.
Qed.


Lemma combine_repeat_fst {A B} (x : A) (l : list B) :
  map fst (combine (repeat x (List.length l)) l) = repeat x (List.length l).
Proof. induction l as [|b l IH]; cbn; [reflexivity|now rewrite IH]. Qed.

Lemma combine_repeat_snd {A B} (x : A) (l : list B) :
  map snd (combine (repeat x (List.length l)) l) = l.
Proof. induction l as [|b l IH]; cbn; [reflexivity|now rewrite IH]. Qed.

Lemma fold_left_repeat_S {A B} (f : A -> B -> A) (b : B) (n : nat) (a : A) :
  fold_left f (repeat b (S n)) a = f (fold_left f (repeat b n) a) b.
Proof.
  revert a. induction n as [|n IH]; intros a; [reflexivity|].
  cbn [repeat fold_left] in *. now rewrite IH.
Qed.

Lemma Qabs_bound (x y d : Q) : (Qabs (x - y) <= d)%Q -> (y - d <= x <= y + d)%Q.
Proof. intros H. apply Qabs_Qle_condition in H. split; lra. Qed.

Lemma rounded_step (b s t p X T eta iN c53 c44 c45 c42 : Q) :
  ((s + t) - c44 <= b <= (s + t) + c44)%Q ->
  (X - eta <= s <= X + eta)%Q ->
  (p * 300 - c45 <= t <= p * 300 + c45)%Q ->
  (iN - c53 <= p <= iN + c53)%Q ->
  (T == 300 * iN)%Q ->
  (c53 * 300 <= c44)%Q ->
  (c45 + c44 + c44 <= c42)%Q ->
  (- (eta + c42) <= b - (X + T) <= eta + c42)%Q.
Proof. intros. split; lra. Qed.

(** Equal shares of a strip of 300 columns: the running sum of the rounded
    widths stays within a quarter of a column of the exact one. *)
Lemma equal_shares_sum (n i : nat) :
  (1 <= n)%nat -> (Z.of_nat n <= 2 ^ 40) -> (i <= n)%nat ->
  let s := fold_left (fun s p => binary64 (s + binary64 (p * 300))) (repeat (binary64 (1 / inject_Z (Z.of_nat n))) i) 0%Q in
  (0 <= s)%Q /\
  (Qabs (s - inject_Z (Z.of_nat i) * (300 / inject_Z (Z.of_nat n)))
   <= inject_Z (Z.of_nat i) * (1 # 2 ^ 42))%Q.
Proof.
  intros Hn Hmax. set (N := inject_Z (Z.of_nat n)).
  assert (HN : (1 <= N)%Q).
  { subst N. change 1%Q with (inject_Z 1). rewrite <- Zle_Qle. lia. }
  assert (HN2 : (N <= inject_Z (2 ^ 40))%Q).
  { subst N. rewrite <- Zle_Qle. exact Hmax. }
  assert (HN0 : ~ (N == 0)%Q) by lra.
  set (T := (300 / N)%Q). set (p := binary64 (1 / N)).
  assert (Hinv : (0 < 1 / N <= 1)%Q).
  { split.
    - apply Qlt_shift_div_l; lra.
    - apply Qle_shift_div_r; lra. }
  assert (HT : (T == 300 * (1 / N))%Q) by (subst T; field; exact HN0).
  assert (Hp0 : (0 <= p)%Q) by (apply binary64_nonneg; lra).
  assert (Hp : (Qabs (p - 1 / N) <= 1 # 2 ^ 53)%Q).
  { apply (binary64_error (1 / N) 0); [lra| |lia].
    change (2 ^ (0 + 1))%Q with 2%Q. lra. }
  apply Qabs_bound in Hp.
  set (t := binary64 (p * 300)).
  assert (Ht0 : (0 <= t)%Q) by (apply binary64_nonneg; lra).
  assert (Ht : (Qabs (t - p * 300) <= 1 # 2 ^ 45)%Q).
  { apply (binary64_error (p * 300) 8); [lra| |lia].
    change (2 ^ (8 + 1))%Q with 512%Q.
    assert ((1 # 2 ^ 53) <= 1 # 2)%Q by (unfold Qle; cbn; lia). lra. }
  apply Qabs_bound in Ht.
  assert (E53 : ((1 # 2 ^ 53) * 300 <= 1 # 2 ^ 44)%Q) by (unfold Qle; cbn; lia).
  assert (E42 : ((1 # 2 ^ 45) + (1 # 2 ^ 44) + (1 # 2 ^ 44) <= 1 # 2 ^ 42)%Q)
    by (unfold Qle; cbn; lia).
  assert (EN : (inject_Z (2 ^ 40) * (1 # 2 ^ 42) == 1 # 4)%Q) by reflexivity.
  induction i as [|i IH]; intros Hi s.
  - subst s. cbn [repeat fold_left]. split; [lra|].
    change (inject_Z (Z.of_nat 0)) with 0%Q.
    apply Qabs_Qle_condition. split; lra.
  - assert (Hi' : (i <= n)%nat) by lia. specialize (IH Hi'). cbv zeta in IH.
    subst s. rewrite fold_left_repeat_S. fold p in IH |- *.
    set (s := fold_left (fun s p => binary64 (s + binary64 (p * 300))) (repeat p i) 0%Q) in *.
    destruct IH as [Hs0 Hs]. apply Qabs_bound in Hs.
    set (a := inject_Z (Z.of_nat i)) in *.
    assert (Ha : (inject_Z (Z.of_nat (S i)) == a + 1)%Q).
    { subst a. rewrite Nat2Z.inj_succ, <- Z.add_1_r, inject_Z_plus. reflexivity. }
    assert (Ha0 : (0 <= a)%Q).
    { subst a. change 0%Q with (inject_Z 0). rewrite <- Zle_Qle. lia. }
    assert (HaN : (a + 1 <= N)%Q).
    { rewrite <- Ha. subst N. rewrite <- Zle_Qle. lia. }
    set (X := (a * T)%Q) in *.
    assert (HX : ((a + 1) * T == X + T)%Q) by (subst X; ring).
    assert (HXN : (X + T <= 300)%Q).
    { rewrite <- HX. apply Qle_trans with (N * T)%Q.
      - apply Qmult_le_compat_r; [exact HaN|subst T; lra].
      - subst T. apply Qle_lteq. right. field. exact HN0. }
    assert (HT0 : (0 <= T)%Q) by lra.
    set (eta := (a * (1 # 2 ^ 42))%Q) in *.
    assert (Heta : ((a + 1) * (1 # 2 ^ 42) == eta + (1 # 2 ^ 42))%Q) by (subst eta; ring).
    assert (HetaN : (eta + (1 # 2 ^ 42) <= 1 # 4)%Q).
    { rewrite <- Heta, <- EN. apply Qmult_le_compat_r; [lra|discriminate]. }
    cbv beta. fold t.
    assert (Hsum0 : (0 <= s + t)%Q) by lra.
    assert (Hst : (Qabs (binary64 (s + t) - (s + t)) <= 1 # 2 ^ 44)%Q).
    { apply (binary64_error (s + t) 9); [exact Hsum0| |lia].
      change (2 ^ (9 + 1))%Q with 1024%Q. lra. }
    apply Qabs_bound in Hst.
    split; [apply binary64_nonneg; exact Hsum0|].
    rewrite Ha, HX, Heta. apply Qabs_Qle_condition.
    exact (rounded_step _ _ _ _ _ _ _ _ _ _ _ _ Hst Hs Ht Hp HT E53 E42).
Qed.

(** [create_palette] of [paletti.py] without proportions: every colour gets
    the share [1.0 / n]; whatever the painter, one bar per colour is painted,
    in order, and the bars follow one another without a gap from column 0.
    For at most [2 ** 40] colours the last bar ends in column 299 or 300: the
    rounding of the shares and of their running sum moves the end by less
    than a column.  Without any colour the call raises
    [ZeroDivisionError]. *)
Theorem Paletti_create_palette_default (maincolors : list (list Q)) :
  maincolors <> [] ->
  Z.of_nat (List.length maincolors) <= 2 ^ 40 ->
  let n := List.length maincolors in
  let bars := bars_of 300 0 (combine (repeat (binary64 (1 / inject_Z (Z.of_nat n))) n)
                                     maincolors) in
  (forall rect,
     Paletti.create_palette rect maincolors None
     = Ok (fold_left (fun img bar => rect img (fst (fst bar), 0) (snd (fst bar), 50) (snd bar))
                     bars (zeros [50; 300; 3]%nat))) /\
  map snd bars = maincolors /\
  contiguous 0 bars /\
  299 <= last_column 0 bars <= 300 /\
  (forall rect, Paletti.create_palette rect [] None = Raise Paletti.ZeroDivisionError).
Proof.
  intros Hne Hmax n bars.
  assert (Hn : (1 <= n)%nat).
  { subst n. destruct maincolors; [congruence|cbn; lia]. }
  split; [|split; [|split; [|split]]].
  - intros rect. unfold Paletti.create_palette. fold n.
    destruct (Nat.eqb_spec n 0) as [H0|_]; [lia|].
    cbn [rbind]. now rewrite Paletti_draw_bars_spec.
  - subst bars. rewrite bars_of_colours. apply combine_repeat_snd.
  - apply (bars_of_contiguous 300 _ 0).
  - subst bars. change 0 with (Qtruncate 0) at 1 3. rewrite bars_of_last.
    subst n. rewrite combine_repeat_fst.
    destruct (equal_shares_sum (List.length maincolors) (List.length maincolors) Hn Hmax
                (le_n _)) as [H0 Hs].
    set (s := fold_left _ _ 0%Q) in *.
    set (N := inject_Z (Z.of_nat (List.length maincolors))) in *.
    assert (HN : (1 <= N)%Q).
    { subst N. change 1%Q with (inject_Z 1). rewrite <- Zle_Qle. lia. }
    assert (HN2 : (N <= inject_Z (2 ^ 40))%Q).
    { subst N. rewrite <- Zle_Qle. exact Hmax. }
    assert (E1 : (N * (300 / N) == 300)%Q) by (field; lra).
    assert (E2 : (N * (1 # 2 ^ 42) <= 1 # 4)%Q).
    { apply Qle_trans with (inject_Z (2 ^ 40) * (1 # 2 ^ 42))%Q.
      - apply Qmult_le_compat_r; [exact HN2|discriminate].
      - apply Qle_lteq. right. reflexivity. }
    rewrite E1 in Hs. apply Qabs_bound in Hs.
    assert (Hlo : (299 <= s)%Q) by lra.
    assert (Hhi : (s <= 300 + (1 # 4))%Q) by lra.
    unfold Qtruncate.
    assert (Hb : Qle_bool 0 s = true) by now apply Qle_bool_iff.
    rewrite Hb. split.
    + change 299 with (Qfloor 299). now apply Qfloor_resp_le.
    + change 300 with (Qfloor (300 + (1 # 4))). now apply Qfloor_resp_le.
  - reflexivity.
Qed.

Lemma Paletti_create_palette_default_witness :
  let maincolors := repeat [1; 0; 0]%Q 7 in
  let bars := bars_of 300 0 (combine (repeat (binary64 (1 / 7)) 7) maincolors) in
  ((forall rect,
      Paletti.create_palette rect maincolors None
      = Ok (fold_left (fun img bar => rect img (fst (fst bar), 0) (snd (fst bar), 50) (snd bar))
                      bars (zeros [50; 300; 3]%nat))) /\
   map snd bars = maincolors /\
   contiguous 0 bars /\
   299 <= last_column 0 bars <= 300 /\
   (forall rect, Paletti.create_palette rect [] None = Raise Paletti.ZeroDivisionError)) /\
  map (fun bar => snd (fst bar)) bars = [42; 85; 128; 171; 214; 257; 299].
Proof.
  intros maincolors bars. split.
  - apply (Paletti_create_palette_default maincolors); [discriminate|vm_compute; discriminate].
  - vm_compute. reflexivity.
Defined.

(** ** The strip and the table of the packaged module *)

Lemma rmap_ok {A B} (f : A -> result B) (g : A -> B) (l : list A) :
  (forall x, In x l -> f x = Ok (g x)) -> rmap f l = Ok (map g l).
Proof.
  induction l as [|a l IH]; intros H; [reflexivity|].
  cbn [rmap map]. rewrite (H a) by now left. cbn [rbind].
  rewrite IH by (intros x Hx; apply H; now right). reflexivity.
Qed.

(** The items of an array of at least one axis. *)
Lemma iterate_items (a : ndarray) (n : nat) (rest : list nat) :
  shape a = n :: rest ->
  iterate a
  = Ok (map (fun i => mk_array rest (firstn (prod_shape rest)
                                            (skipn (i * prod_shape rest) (data a))))
            (seq 0 n)).
Proof.
  intros Hs. unfold iterate. rewrite Hs.
  apply rmap_ok. intros i Hi. apply in_seq in Hi.
  unfold getitem. rewrite Hs.
  destruct (Z.ltb_spec (Z.of_nat i) 0); [lia|].
  destruct (Z.leb_spec 0 (Z.of_nat i)); [|lia].
  destruct (Z.ltb_spec (Z.of_nat i) (Z.of_nat n)); [|lia].
  cbn [andb]. now rewrite Nat2Z.id.
Qed.





Section Strip.
Context (E : Externals).
Variable rect : picture -> Q * Q -> Q * Q -> list Z -> result picture.



(** [create_palette] on colours that form a one-dimensional array. *)
Lemma Package_create_palette_flat (palette : Palette) (m : nat) (outname : string)
      (save : bool) (size : nat * nat) (w : world E) :
  shape (colors palette) = [S m] ->
  percent palette <> [] ->
  Package.create_palette E rect palette outname save size w = (Raise TypeError, w).
Proof.
  intros Hs Hp. destruct size as [width height]. unfold Package.create_palette.
  rewrite bind_lift, (iterate_items _ _ _ Hs).
  destruct (percent palette) as [|p ps]; [congruence|].
  cbn [seq map combine]. rewrite bind_lift. reflexivity.
Qed.

End Strip.



(** A Palette whose colours form a one-dimensional array, such as the one
    that [kmeans_palette] of [paletti/paletti.py] returns for [k = 1], can be
    neither drawn nor tabulated nor printed as hexadecimal codes: its items
    are numbers, not triples, and [tuple(c)] raises [TypeError].
    [create_palette] then saves nothing, the table of the packaged
    [print_palette] is never printed, and [print_palette] of [paletti.py]
    stops after its heading. *)
Theorem degenerate_palette_unusable (E : Externals)
        (rect : picture -> Q * Q -> Q * Q -> list Z -> result picture)
        (utils_rgb2hex : list Z -> result string) (palette : Palette) (m : nat) :
  shape (colors palette) = [S m] ->
  percent palette <> [] ->
  (forall outname save size (w : world E),
     Package.create_palette E rect palette outname save size w = (Raise TypeError, w)) /\
  Package.print_palette_rows utils_rgb2hex palette = Raise TypeError /\
  (forall fname method,
     Paletti.print_palette fname palette method "hex"
     = ([Paletti.Heading fname method], Some TypeError)).
Proof.
  intros Hs Hp. split; [|split].
  - intros outname save size w. now apply Package_create_palette_flat with (m := m).
  - unfold Package.print_palette_rows. rewrite (iterate_items _ _ _ Hs). reflexivity.
  - intros fname method. unfold Paletti.print_palette.
    rewrite (iterate_items _ _ _ Hs). reflexivity.
Qed.

Lemma degenerate_palette_unusable_witness :
  let rect := fun (img : picture) (_ _ : Q * Q) (_ : list Z) => Ok img in
  let palette := mk_Palette (mk_array [3%nat] [1; 0; 0]%Q) [0; 1; 0]%Q in
  (forall outname save size (w : world Sample.externals),
     Package.create_palette Sample.externals rect palette outname save size w
     = (Raise TypeError, w)) /\
  Package.print_palette_rows (fun _ => Ok "#000000") palette = Raise TypeError /\
  (forall fname method,
     Paletti.print_palette fname palette method "hex"
     = ([Paletti.Heading fname method], Some TypeError)).
Proof.
  intros rect palette.
  apply (degenerate_palette_unusable Sample.externals rect (fun _ => Ok "#000000") palette 2).
  - reflexivity.
  - discriminate.
Defined.

(** ** What [print_palette] of [paletti.py] writes *)

Lemma skipn_nth_error {A} (l : list A) (i : nat) (x : A) :
  nth_error l i = Some x -> skipn i l = x :: skipn (S i) l.
Proof.
  revert l. induction i as [|i IH]; intros [|a l] H; try discriminate.
  - now inversion H.
  - cbn [skipn]. cbn [nth_error] in H. rewrite (IH l H). reflexivity.
Qed.

Lemma print_entries_spec (cf : string) (pct : list Q) (cs : list Paletti.shown) (i : nat) :
  Paletti.print_entries cf pct i cs
  = (map (fun cp => Paletti.Entry cf (fst cp) (snd cp)) (combine cs (skipn i pct)),
     if Nat.leb (List.length cs) (List.length pct - i) then None else Some IndexError).
Proof.
  revert i. induction cs as [|c cs IH]; intros i; [reflexivity|].
  cbn [Paletti.print_entries]. destruct (nth_error pct i) as [p|] eqn:Hn.
  - rewrite IH, (skipn_nth_error _ _ _ Hn). cbn [combine map fst snd List.length].
    assert (Hi : (i < List.length pct)%nat).
    { apply nth_error_Some. congruence. }
    f_equal.
    destruct (Nat.leb_spec (List.length cs) (List.length pct - S i));
      destruct (Nat.leb_spec (S (List.length cs)) (List.length pct - i));
      try reflexivity; lia.
  - apply nth_error_None in Hn. rewrite skipn_all2 by exact Hn.
    rewrite combine_nil. cbn [map List.length].
    destruct (Nat.leb_spec (S (List.length cs)) (List.length pct - i)); [lia|reflexivity].
Qed.

Lemma entries_of_codes (cf : string) (codes : list string) (pct : list Q) :
  map (fun cp => Paletti.Entry cf (fst cp) (snd cp)) (combine (map Paletti.Code codes) pct)
  = map (fun hp => Paletti.Entry cf (Paletti.Code (fst hp)) (snd hp)) (combine codes pct).
Proof.
  revert pct. induction codes as [|h codes IH]; intros [|p pct]; try reflexivity.
  cbn [map combine fst snd]. now rewrite IH.
Qed.

(** The code of three bytes decodes to the three bytes. *)
Lemma decode_channels (a b c : Z) :
  hex2rgb (rgb2hex (a mod 256, b mod 256, c mod 256))
  = Ok [a mod 256; b mod 256; c mod 256].
Proof.
  assert (Hm : forall v, 0 <= v mod 256 <= 255).
  { intros v. pose proof (Z.mod_pos_bound v 256). lia. }
  destruct (fmt_02x_byte _ (Hm a)) as (r1 & r2 & Er & Nr & Ir).
  destruct (fmt_02x_byte _ (Hm b)) as (g1 & g2 & Eg & _ & Ig).
  destruct (fmt_02x_byte _ (Hm c)) as (b1 & b2 & Eb & _ & Ib).
  unfold rgb2hex. rewrite Er, Eg, Eb.
  set (value := String r1 (String r2 (String g1 (String g2 (String b1 (String b2 "")))))).
  assert (Hv : (let s := "#" ++ value in
                if startswith s "#" then lstrip "#" s else s) = value).
  { subst value. cbn. rewrite Nr. reflexivity. }
  unfold hex2rgb. cbn zeta in Hv.
  change ("#" ++ String r1 (String r2 "") ++ String g1 (String g2 "")
              ++ String b1 (String b2 "")) with ("#" ++ value).
  rewrite Hv. subst value. cbn -[int16 Z.modulo].
  rewrite Ir, Ig, Ib. reflexivity.
Qed.

Lemma length_item (l : list Q) (n i : nat) :
  List.length l = (n * 3)%nat -> (i < n)%nat ->
  List.length (firstn 3 (skipn (i * 3) l)) = 3%nat.
Proof. intros Hl Hi. rewrite length_firstn, length_skipn. lia. Qed.

Lemma In_firstn_skipn {A} (x : A) (n k : nat) (l : list A) :
  In x (firstn n (skipn k l)) -> In x l.
Proof.
  intros H. rewrite <- (firstn_skipn k l). apply in_or_app. right.
  rewrite <- (firstn_skipn n (skipn k l)). apply in_or_app. now left.
Qed.

(** A channel between 0 and 1, multiplied by 255 in double precision and
    truncated, is a byte. *)
Lemma channel_byte (v : Q) :
  (0 <= v <= 1)%Q -> 0 <= Qtruncate (binary64 (times255 v)) <= 255.
Proof.
  intros Hv. unfold times255.
  assert (Hx : (0 <= v * 255 <= 255)%Q) by lra.
  pose proof (binary64_nonneg _ (proj1 Hx)) as Hb0.
  assert (He : (Qabs (binary64 (v * 255) - v * 255) <= 1 # 2 ^ 46)%Q).
  { apply (binary64_error (v * 255) 7); [lra| |lia].
    change (2 ^ (7 + 1))%Q with 256%Q. lra. }
  apply Qabs_Qle_condition in He.
  set (b := binary64 (v * 255)) in *.
  assert (Hhi : (b <= 255 + (1 # 2 ^ 46))%Q) by lra.
  unfold Qtruncate.
  assert (Hb : Qle_bool 0 b = true) by now apply Qle_bool_iff.
  rewrite Hb. split.
  - change 0 with (Qfloor 0). now apply Qfloor_resp_le.
  - change 255 with (Qfloor (255 + (1 # 2 ^ 46))). now apply Qfloor_resp_le.
Qed.

(** [print_palette] of [paletti.py] with the format ['hex'], on a Palette
    whose colours form an array of shape (n, 3) with every channel between 0
    and 1: after the heading there is one line per colour that has a
    proportion, showing a hexadecimal code which [hex2rgb] decodes to the
    three channels of that colour, each multiplied by 255 in double precision
    and truncated, a byte each; the call ends with [IndexError] exactly when
    there are fewer proportions than colours. *)
Theorem print_palette_hex_codes (fname method : string) (palette : Palette) (n : nat) :
  shape (colors palette) = [n; 3%nat] ->
  wf (colors palette) ->
  Forall (fun v => 0 <= v <= 1)%Q (data (colors palette)) ->
  exists codes,
    Paletti.print_palette fname palette method "hex"
    = (Paletti.Heading fname method
         :: map (fun hp => Paletti.Entry "hex" (Paletti.Code (fst hp)) (snd hp))
                (combine codes (percent palette)),
       if Nat.leb n (List.length (percent palette)) then None else Some IndexError) /\
    List.length codes = n /\
    forall i, (i < n)%nat ->
      exists h,
        let channels := map (fun v => Qtruncate (binary64 (times255 v)))
                            (firstn 3 (skipn (i * 3) (data (colors palette)))) in
        nth_error codes i = Some h /\
        hex2rgb h = Ok channels /\
        List.length channels = 3%nat /\
        Forall (fun c => 0 <= c <= 255) channels.
Proof.
  intros Hs Hwf Hunit. unfold wf, size in Hwf. rewrite Hs in Hwf.
  cbn [prod_shape fold_right] in Hwf.
  assert (Hlen : List.length (data (colors palette)) = (n * 3)%nat) by lia. clear Hwf.
  set (row := fun i => firstn 3 (skipn (i * 3) (data (colors palette)))).
  set (chan := fun v => Qtruncate (binary64 (times255 v))).
  set (code := fun i =>
                 match map chan (row i) with
                 | [r; g; b] => rgb2hex (r, g, b)
                 | _ => ""
                 end).
  assert (Hrow : forall i, Forall (fun v => 0 <= v <= 1)%Q (row i)).
  { intros i. subst row. cbv beta. apply Forall_forall. intros v Hin.
    apply (proj1 (Forall_forall _ _) Hunit).
    eapply In_firstn_skipn. exact Hin. }
  assert (Hcode : forall i, (i < n)%nat ->
             Paletti.hex_code
               (astype_uint8 (amap (fun v => binary64 (times255 v)) (mk_array [3%nat] (row i))))
             = Ok (Paletti.Code (code i)) /\
             hex2rgb (code i) = Ok (map chan (row i)) /\
             List.length (map chan (row i)) = 3%nat /\
             Forall (fun c => 0 <= c <= 255) (map chan (row i))).
  { intros i Hi. pose proof (length_item _ n i Hlen Hi) as Hl. fold (row i) in Hl.
    specialize (Hrow i). subst code. cbv beta.
    destruct (row i) as [|x [|y [|z [|? ?]]]]; try discriminate Hl.
    inversion Hrow as [|? ? Hx Hr1]; subst. inversion Hr1 as [|? ? Hy Hr2]; subst.
    inversion Hr2 as [|? ? Hz _]; subst.
    pose proof (channel_byte x Hx) as Bx. pose proof (channel_byte y Hy) as By.
    pose proof (channel_byte z Hz) as Bz.
    cbn [map]. fold (chan x) (chan y) (chan z) in Bx, By, Bz.
    assert (Ex : chan x mod 256 = chan x) by (apply Z.mod_small; lia).
    assert (Ey : chan y mod 256 = chan y) by (apply Z.mod_small; lia).
    assert (Ez : chan z mod 256 = chan z) by (apply Z.mod_small; lia).
    split; [|split; [|split]].
    - unfold Paletti.hex_code, tuple. cbn [astype_uint8 amap shape data map rbind].
      rewrite !Qfloor_Z. fold (chan x) (chan y) (chan z). now rewrite Ex, Ey, Ez.
    - rewrite <- Ex, <- Ey, <- Ez. apply decode_channels.
    - reflexivity.
    - repeat constructor; lia. }
  exists (map code (seq 0 n)). split; [|split].
  - unfold Paletti.print_palette. rewrite (iterate_items _ _ _ Hs).
    cbn [String.eqb Ascii.eqb Bool.eqb]. rewrite !map_map.
    assert (Hr : rmap Paletti.hex_code
                   (map (fun i => astype_uint8 (amap (fun v => binary64 (times255 v))
                            (mk_array [3%nat]
                               (firstn (prod_shape [3%nat])
                                  (skipn (i * prod_shape [3%nat]) (data (colors palette)))))))
                        (seq 0 n))
                 = Ok (map Paletti.Code (map code (seq 0 n)))).
    { generalize (fun i (H : In i (seq 0 n)) => Hcode i (proj2 (proj1 (in_seq _ _ _) H))).
      generalize (seq 0 n) as l. induction l as [|i l IH]; intros H; [reflexivity|].
      cbn [map rmap]. change (prod_shape [3%nat]) with 3%nat. fold (row i).
      rewrite (proj1 (H i (or_introl eq_refl))). cbn [rbind].
      change (prod_shape [3%nat]) with 3%nat in IH.
      rewrite IH by (intros j Hj; apply H; now right). reflexivity. }
    rewrite Hr, print_entries_spec. cbn [skipn].
    rewrite entries_of_codes, !length_map, length_seq, Nat.sub_0_r. reflexivity.
  - now rewrite length_map, length_seq.
  - intros i Hi. exists (code i). cbv zeta. fold (row i). fold chan.
    split; [|apply (Hcode i Hi)].
    apply map_nth_error. rewrite nth_error_nth' with (d := 0%nat) by (rewrite length_seq; lia).
    now rewrite seq_nth by lia.
Qed.

(** The double nearest to 0.6, which is what 153 / 255. evaluates to. *)
Lemma print_palette_hex_codes_witness :
  let palette :=
    mk_Palette (mk_array [2%nat; 3%nat]
                         [1; 0; 5404319552844595 # 9007199254740992; 0; 1 # 2; 1]%Q)
               [3 # 4]%Q in
  (exists codes,
     Paletti.print_palette "a.png" palette "k-means" "hex"
     = (Paletti.Heading "a.png" "k-means"
          :: map (fun hp => Paletti.Entry "hex" (Paletti.Code (fst hp)) (snd hp))
                 (combine codes (percent palette)),
        if Nat.leb 2 (List.length (percent palette)) then None else Some IndexError) /\
     List.length codes = 2%nat /\
     forall i, (i < 2)%nat ->
       exists h,
         let channels := map (fun v => Qtruncate (binary64 (times255 v)))
                             (firstn 3 (skipn (i * 3) (data (colors palette)))) in
         nth_error codes i = Some h /\
         hex2rgb h = Ok channels /\
         List.length channels = 3%nat /\
         Forall (fun c => 0 <= c <= 255) channels) /\
  Paletti.print_palette "a.png" palette "k-means" "hex"
  = ([Paletti.Heading "a.png" "k-means";
      Paletti.Entry "hex" (Paletti.Code "#ff0099") (3 # 4)], Some IndexError).
Proof.
  intros palette. split.
  - apply (print_palette_hex_codes "a.png" "k-means" palette 2).
    + reflexivity.
    + reflexivity.
    + repeat constructor; cbn; discriminate.
  - vm_compute. reflexivity.
Defined.

(** ** From the image to the strip *)





(** [kmeans_palette] of [paletti/paletti.py] with [k = 1], followed by
    [create_palette] on the Palette it returns: whatever the painter, the
    name, the size and [save], the second call raises [TypeError]; the
    clustered image has been written, the strip has not. *)
Theorem Package_one_cluster_strip (E : Externals)
        (rect : picture -> Q * Q -> Q * Q -> list Z -> result picture)
        (fname : string) (w : world E)
        (h0 w0 : nat) (imarr centers : ndarray) (rs : RandomState E) :
  Package.prepare E fname w = (Ok (h0, w0, imarr), w) ->
  shape imarr = [(h0 * w0)%nat; 3%nat] ->
  (0 < h0 * w0)%nat ->
  KMeans_fit E (np_random w) imarr 1 = (Ok centers, rs) ->
  shape centers = [1%nat; 3%nat] ->
  List.length (data centers) = 3%nat ->
  List.length (KMeans_predict E centers imarr) = (h0 * w0)%nat ->
  Forall (fun l => 0 <= l < 1) (KMeans_predict E centers imarr) ->
  exists pic, forall outname save size,
    (pal <- Package.kmeans_palette E fname 1 ;;
     Package.create_palette E rect pal outname save size) w
    = (Raise TypeError,
       mk_world rs ((Package.clustered_name fname, ImageFile pic) :: fs w)).
Proof.
  intros Hprep Himarr Hpos Hfit Hsc Hdc Hlen Hlab.
  destruct (Package_kmeans_palette_one E fname w h0 w0 imarr centers rs
              Hprep Himarr Hpos Hfit Hsc Hdc Hlen Hlab) as (pal & pic & Hrun & Hs & Hp).
  exists pic. intros outname save size. erewrite bind_Ok by exact Hrun.
  apply Package_create_palette_flat with (m := 2%nat); [exact Hs|].
  intros H0. rewrite H0 in Hp. inversion Hp.
Qed.

Lemma Package_one_cluster_strip_witness :
  let rect := fun (img : picture) (_ _ : Q * Q) (_ : list Z) => Ok img in
  exists pic, forall outname save size,
    (pal <- Package.kmeans_palette Sample.externals "a.png" 1 ;;
     Package.create_palette Sample.externals rect pal outname save size) (Sample.start 0)
    = (Raise TypeError,
       mk_world (1%nat : RandomState Sample.externals)
                ((Package.clustered_name "a.png", ImageFile pic) :: fs (Sample.start 0))).
Proof.
  intros rect.
  eapply (Package_one_cluster_strip Sample.externals rect "a.png" (Sample.start 0) 2 2).
  - vm_compute. reflexivity.
  - reflexivity.
  - vm_compute. lia.
  - vm_compute. reflexivity.
  - reflexivity.
  - reflexivity.
  - vm_compute. reflexivity.
  - vm_compute. repeat constructor; discriminate.
Defined.

(** [kmeans_palette] of [paletti.py] with [k = 1], followed by
    [print_palette] on the Palette it returns: the three channels of the one
    colour are taken for three colours.  With the format ['hex'] the call
    raises [TypeError] after the heading; with any other format it writes one
    line, which shows a single channel beside the one proportion, and raises
    [IndexError]. *)
Theorem Paletti_one_cluster_print (E : Externals) (fname method : string) (w : world E)
        (imarr centers : ndarray) (rs : RandomState E) :
  Paletti.prepare E fname w = (Ok imarr, w) ->
  KMeans_fit E (np_random w) imarr 1 = (Ok centers, rs) ->
  shape centers = [1%nat; 3%nat] ->
  KMeans_predict E centers imarr <> [] ->
  exists pal,
    Paletti.kmeans_palette E fname 1 w = (Ok pal, mk_world rs (fs w)) /\
    Paletti.print_palette fname pal method "hex"
    = ([Paletti.Heading fname method], Some TypeError) /\
    forall color_format, String.eqb color_format "hex" = false ->
      exists c p,
        shape c = [] /\
        Paletti.print_palette fname pal method color_format
        = ([Paletti.Heading fname method;
            Paletti.Entry color_format (Paletti.Channels c) p], Some IndexError).
Proof.
  intros Hprep Hfit Hsc Hne.
  destruct (Paletti_kmeans_palette_ok E fname w imarr centers rs 1 Hprep)
    as (pal & Hrun & Hs & Hl & _); try assumption; [lia|].
  cbn [Nat.eqb] in Hs. exists pal. split; [exact Hrun|]. split.
  - unfold Paletti.print_palette. rewrite (iterate_items _ _ _ Hs). reflexivity.
  - intros cf Hcf. unfold Paletti.print_palette.
    rewrite (iterate_items _ _ _ Hs), Hcf.
    destruct (percent pal) as [|p [|? ?]]; try discriminate Hl.
    eexists _, p. split; [|reflexivity]. reflexivity.
Qed.

Lemma Paletti_one_cluster_print_witness :
  exists pal,
    Paletti.kmeans_palette Sample.externals "a.png" 1 (Sample.start 0)
    = (Ok pal, mk_world (1%nat : RandomState Sample.externals) (fs (Sample.start 0))) /\
    Paletti.print_palette "a.png" pal "k-means" "hex"
    = ([Paletti.Heading "a.png" "k-means"], Some TypeError) /\
    forall color_format, String.eqb color_format "hex" = false ->
      exists c p,
        shape c = [] /\
        Paletti.print_palette "a.png" pal "k-means" color_format
        = ([Paletti.Heading "a.png" "k-means";
            Paletti.Entry color_format (Paletti.Channels c) p], Some IndexError).
Proof.
  eapply (Paletti_one_cluster_print Sample.externals "a.png" "k-means" (Sample.start 0)).
  - vm_compute. reflexivity.
  - vm_compute. reflexivity.
  - reflexivity.
  - vm_compute. discriminate.
Defined.
